(** * Cluster membership bookkeeping (package cluster, member.go)

    A shallow embedding of the two books of [src/cluster/member.go]:

    - [memberStatusBook]: a slice of member status records with a grace
      period, with [Count], [add], [randGet], [remove], [cleanup], [names];
    - [memberOperationBook]: a map from node name to the latest accepted
      operation, with [save], [get], [cleanup].

    Conventions of the embedding.

    - A Go method with a pointer receiver that mutates the book becomes a
      function from the book to the returned value and the new book.
    - The slice [[]*memberStatus] is a [list] of records and the map
      [map[string]*memberOperation] is a [gmap string]: no method of the
      file writes through the stored pointers, so the pointees are the
      values. A nil slice and an empty slice are both [[]].
    - [time.Now()] in [save] is the clock reading, passed as an argument.
    - The pseudo-random generator behind [rand.Int31n] is the accepted
      31-bit draw, passed as an argument.
    - A run-time panic is the [Panic] outcome of [result]. *)

From stdpp Require Import gmap strings list fin_maps pretty.
From Stdlib Require Import ZArith NArith Lia Ascii.

(** ** Go's [time] package, as far as the books use it *)

Module time.

(** [time.Duration] is an int64 count of nanoseconds. *)
Definition Duration : Type := Z.

Definition Second : Duration := 1000000000%Z.

Definition minDuration : Duration := (- 2 ^ 63)%Z.
Definition maxDuration : Duration := (2 ^ 63 - 1)%Z.

(** [time.Time]: the wall clock reading, in nanoseconds since the zero
    instant (January 1, year 1, 00:00:00 UTC), and the optional monotonic
    clock reading, in nanoseconds since process start. *)
Record Time : Type := mkTime {
  wall : Z;
  mono : option Z
}.

(** The zero value of [time.Time]: what an unset field holds. *)
Definition zero : Time := {| wall := 0; mono := None |}.

(** A difference that does not fit a [Duration] is replaced by the
    nearest bound. *)
Definition saturate (d : Z) : Duration :=
  if (d <? minDuration)%Z then minDuration
  else if (maxDuration <? d)%Z then maxDuration
  else d.

(** [t.Sub(u)]: the duration t-u. When both instants carry a monotonic
    reading the monotonic readings alone are used. *)
Definition Sub (t u : Time) : Duration :=
  match mono t, mono u with
  | Some mt, Some mu => saturate (mt - mu)
  | _, _ => saturate (wall t - wall u)
  end.

End time.

(** ** Values declared elsewhere in the package *)

(** Modelled from the spec: the declaration of [logicalTime] is not in
    member.go. The spec describes it as an opaque totally ordered value with
    a zero and a strict [>], for which an unsigned integer counter is
    sufficient. *)
Definition logicalTime : Type := N.

(** Modelled from the spec: the constant [zeroLogicalTime] is not in
    member.go; it is the distinguished zero of the logical clock. *)
Definition zeroLogicalTime : logicalTime := 0%N.

(** Modelled from the spec: the declaration of [messageType] is not in
    member.go. The spec treats the kind as an opaque comparable tag of an
    open enumeration and writes its values as "join", "leave", ... *)
Definition messageType : Type := string.

(** Modelled from the spec: the declaration of [MemberStatus] is not in
    member.go; a member carries it as a mutable status tag. No method of
    the books reads it. *)
Definition MemberStatus : Type := N.

(** ** Outcomes of calls that can panic *)

Inductive result (A : Type) : Type :=
| Ok (a : A)
| Panic (msg : string).

Arguments Ok {A} a.
Arguments Panic {A} msg.

(** ** Fixed-width integers *)

(** The conversion [int32(x)] of an [int]: the low 32 bits of [x], read as
    a two's complement number. *)
Definition int32 (x : Z) : Z := ((x + 2 ^ 31) mod 2 ^ 32 - 2 ^ 31)%Z.

(** ** [math/rand] *)

Module rand.

(** [rand.Int31n(n)] panics when [n <= 0]; otherwise it returns [v % n]
    where [v] is the draw the generator settles on. *)
Definition Int31n (draw : Z) (n : Z) : result Z :=
  if (n <=? 0)%Z then Panic "invalid argument to Int31n"
  else Ok (draw mod n)%Z.

End rand.

(** ** Members *)

Record member : Type := mkMember {
  name : string;
  tags : gmap string string;
  address : list Z;
  port : Z;
  status : MemberStatus;
  memberListProtocolMin : Z;
  memberListProtocolMax : Z;
  memberListProtocolCurrent : Z;
  clusterProtocolMin : Z;
  clusterProtocolMax : Z;
  clusterProtocolCurrent : Z
}.

(** [memberStatus] embeds [member]: [ms.name] in the source is
    [name (ms_member ms)] here. *)
Record memberStatus : Type := mkMemberStatus {
  ms_member : member;
  lastMessageTime : logicalTime;
  goneTime : time.Time
}.

Definition ms_name (ms : memberStatus) : string := name (ms_member ms).

(** ** The member status book *)

Module memberStatusBook.

Record t : Type := mk {
  members : list memberStatus;
  timeout : time.Duration
}.

Definition createMemberStatusBook (timeout : time.Duration) : t :=
  {| members := []; timeout := timeout |}.

Definition Count (msb : t) : Z := Z.of_nat (length (members msb)).

Definition add (member : memberStatus) (msb : t) : t :=
  {| members := members msb ++ [member]; timeout := timeout msb |}.

(** [msb.members[rand.Int31n(int32(len(msb.members)))]] *)
Definition randGet (draw : Z) (msb : t) : result memberStatus :=
  match rand.Int31n draw (int32 (Z.of_nat (length (members msb)))) with
  | Panic msg => Panic msg
  | Ok i =>
      if (i <? 0)%Z then Panic "index out of range"
      else match members msb !! Z.to_nat i with
           | Some ms => Ok ms
           | None => Panic "index out of range"
           end
  end.

(** One iteration of the loop of [remove]: the state is the slice
    [members] built so far and the counter [removed]. The counter is at
    most the length of the slice, which fits an [int]: the increment does
    not wrap. *)
Definition remove_step (memberName : string)
    (acc : list memberStatus * Z) (ms : memberStatus)
    : list memberStatus * Z :=
  if decide (ms_name ms = memberName)
  then (acc.1, (acc.2 + 1)%Z)
  else (acc.1 ++ [ms], acc.2).

Definition remove (memberName : string) (msb : t) : Z * t :=
  let acc := foldl (remove_step memberName) ([], 0%Z) (members msb) in
  (acc.2, {| members := acc.1; timeout := timeout msb |}).

(** One iteration of the loop of [cleanup]: the state is the pair of
    [keepMembers] and [removedMembers]. *)
Definition cleanup_step (now : time.Time) (timeout : time.Duration)
    (acc : list memberStatus * list memberStatus) (ms : memberStatus)
    : list memberStatus * list memberStatus :=
  if (time.Sub now (goneTime ms) <=? timeout)%Z
  then (acc.1 ++ [ms], acc.2)
  else (acc.1, acc.2 ++ [ms]).

Definition cleanup (now : time.Time) (msb : t) : list memberStatus * t :=
  let acc := foldl (cleanup_step now (timeout msb)) ([], []) (members msb) in
  (acc.2, {| members := acc.1; timeout := timeout msb |}).

Definition names (msb : t) : list string :=
  foldl (fun ret ms => ret ++ [ms_name ms]) [] (members msb).

End memberStatusBook.

(** ** The member operation book *)

Record memberOperation : Type := mkMemberOperation {
  msgType : messageType;
  messageTime : logicalTime;
  receiveTime : time.Time
}.

Module memberOperationBook.

Record t : Type := mk {
  operations : gmap string memberOperation;
  timeout : time.Duration
}.

Definition createMemberOperationBook (timeout : time.Duration) : t :=
  {| operations := ∅; timeout := timeout |}.

(** The book after the assignment
    [mob.operations[nodeName] = &memberOperation{...}] of [save]. *)
Definition accepted (clock : time.Time) (msgType : messageType)
    (nodeName : string) (msgTime : logicalTime) (mob : t) : t :=
  {| operations :=
       <[nodeName := {| msgType := msgType;
                        messageTime := msgTime;
                        receiveTime := clock |}]> (operations mob);
     timeout := timeout mob |}.

(** [save]; [clock] is what [time.Now()] returns during the call. The
    test [!ok || msgTime > operation.messageTime] reads the record only
    when there is one. *)
Definition save (clock : time.Time) (msgType : messageType)
    (nodeName : string) (msgTime : logicalTime) (mob : t) : bool * t :=
  match operations mob !! nodeName with
  | None => (true, accepted clock msgType nodeName msgTime mob)
  | Some operation =>
      if (messageTime operation <? msgTime)%N
      then (true, accepted clock msgType nodeName msgTime mob)
      else (false, mob)
  end.

Definition get (nodeName : string) (msgType' : messageType) (mob : t)
    : bool * logicalTime :=
  match operations mob !! nodeName with
  | None => (false, zeroLogicalTime)
  | Some operation =>
      if decide (msgType operation ≠ msgType') then (false, zeroLogicalTime)
      else (true, messageTime operation)
  end.

(** One iteration of the loop of [cleanup], on the map being swept. *)
Definition cleanup_step (now : time.Time) (timeout : time.Duration)
    (nodeName : string) (operation : memberOperation)
    (ops : gmap string memberOperation) : gmap string memberOperation :=
  if (time.Sub now (receiveTime operation) >? timeout)%Z
  then delete nodeName ops
  else ops.

(** The loop ranges over the entries of the map, in an order the language
    leaves open, and deletes from that same map. *)
Definition cleanup (now : time.Time) (mob : t) : t :=
  {| operations :=
       map_fold (cleanup_step now (timeout mob))
                (operations mob) (operations mob);
     timeout := timeout mob |}.

(** A call of [save] with its arguments and the clock reading it sees. *)
Record saveCall : Type := mkSaveCall {
  call_clock : time.Time;
  call_kind : messageType;
  call_node : string;
  call_time : logicalTime
}.

Definition save_call (mob : t) (c : saveCall) : t :=
  (save (call_clock c) (call_kind c) (call_node c) (call_time c) mob).2.

(** The book after a sequence of [save] calls, oldest first. *)
Definition saves (calls : list saveCall) (mob : t) : t :=
  foldl save_call mob calls.

(** The logical time held in a node's slot, if the slot is filled. *)
Definition storedTime (nodeName : string) (mob : t) : option logicalTime :=
  messageTime <$> operations mob !! nodeName.

End memberOperationBook.

(** ** Concrete books and instants used by the examples below *)

Module Examples.

(** A member with the given name and nothing else set. *)
Definition node (n : string) : member :=
  {| name := n; tags := ∅; address := []; port := 0%Z; status := 0%N;
     memberListProtocolMin := 0%Z; memberListProtocolMax := 0%Z;
     memberListProtocolCurrent := 0%Z;
     clusterProtocolMin := 0%Z; clusterProtocolMax := 0%Z;
     clusterProtocolCurrent := 0%Z |}.

(** A wall clock instant, [s] seconds after the zero instant. *)
Definition at_second (s : Z) : time.Time :=
  {| time.wall := (s * time.Second)%Z; time.mono := None |}.

(** 2017-07-14 02:40:00 UTC: 62135596800 seconds separate the zero
    instant from the Unix epoch. *)
Definition t0 : time.Time := at_second (62135596800 + 1500000000).
Definition t0_plus_9s : time.Time := at_second (62135596800 + 1500000009).
Definition t0_plus_11s : time.Time := at_second (62135596800 + 1500000011).

(** A live member: [goneTime] is left unset. *)
Definition live_n1 : memberStatus :=
  {| ms_member := node "n1"; lastMessageTime := 1%N;
     goneTime := time.zero |}.

(** A member that was determined to be gone at [t0]. *)
Definition gone_n2 : memberStatus :=
  {| ms_member := node "n2"; lastMessageTime := 5%N; goneTime := t0 |}.

Definition ten_seconds : time.Duration := (10 * time.Second)%Z.

Definition live_book : memberStatusBook.t :=
  memberStatusBook.add live_n1
    (memberStatusBook.createMemberStatusBook ten_seconds).

Definition gone_book : memberStatusBook.t :=
  memberStatusBook.add gone_n2
    (memberStatusBook.createMemberStatusBook ten_seconds).

(** Two records under the same name, then a third one. *)
Definition twice_n1_book : memberStatusBook.t :=
  memberStatusBook.add gone_n2
    (memberStatusBook.add live_n1
      (memberStatusBook.add live_n1
        (memberStatusBook.createMemberStatusBook ten_seconds))).

(** A book of 2^31 records. *)
Definition huge_book : memberStatusBook.t :=
  {| memberStatusBook.members := replicate (Z.to_nat (2 ^ 31)) live_n1;
     memberStatusBook.timeout := ten_seconds |}.

Definition empty_gate : memberOperationBook.t :=
  memberOperationBook.createMemberOperationBook ten_seconds.

(** Two later calls of [save]: a fact about another node, and an older
    fact about "n1". *)
Definition later_calls : list memberOperationBook.saveCall :=
  [ {| memberOperationBook.call_clock := t0_plus_9s;
       memberOperationBook.call_kind := "leave";
       memberOperationBook.call_node := "n2";
       memberOperationBook.call_time := 9%N |};
    {| memberOperationBook.call_clock := t0_plus_9s;
       memberOperationBook.call_kind := "update";
       memberOperationBook.call_node := "n1";
       memberOperationBook.call_time := 4%N |} ].

(** A gate holding a record received at [t0] and one received eleven
    seconds later. *)
Definition two_nodes_gate : memberOperationBook.t :=
  (memberOperationBook.save t0_plus_11s "leave" "n2" 2%N
     (memberOperationBook.save t0 "join" "n1" 7%N empty_gate).2).2.

(** Twelve seconds after [t0]. *)
Definition t0_plus_12s : time.Time := at_second (62135596800 + 1500000012).

End Examples.

(** * The mesh controller: packages [registrycenter] and [spec]

    The second source file holds discovery.go of package [registrycenter]
    and the specs of package [spec]. Go strings are sequences of bytes and
    are [string]s here; [fmt.Sprintf] with [%s] and [%d] verbs is written
    out as concatenation, with [pretty] for the decimal digits of [%d]. *)

(** ** Go's [strings] package *)

Module Strings.

(** [strings.Split(s, sep)] for a separator [sep] of one byte: the pieces
    of [s] between the occurrences of [sep], one more than there are
    occurrences. *)
Fixpoint Split (s : string) (sep : ascii) : list string :=
  match s with
  | EmptyString => [EmptyString]
  | String c rest =>
      if decide (c = sep) then EmptyString :: Split rest sep
      else match Split rest sep with
           | piece :: pieces => String c piece :: pieces
           | [] => [String c EmptyString]
           end
  end.

(** The number of occurrences of a byte, [strings.Count] for one byte. *)
Fixpoint Count (s : string) (sep : ascii) : nat :=
  match s with
  | EmptyString => 0
  | String c rest => (if decide (c = sep) then 1 else 0) + Count rest sep
  end.

(** [strings.Join(pieces, sep)] for a separator of one byte. *)
Fixpoint Join (pieces : list string) (sep : ascii) : string :=
  match pieces with
  | [] => EmptyString
  | piece :: rest =>
      match rest with
      | [] => piece
      | _ :: _ => piece +:+ String sep (Join rest sep)
      end
  end.

End Strings.

(** ** Types of the packages the specs import

    The declarations of these packages are not part of the sources. Each
    field of the class stands for the Go type or value named beside it;
    nothing is assumed about them. *)

Class External : Type := {
  (** [*mock.Rule] *)
  mock_Rule : Type;
  (** [ratelimiter.Spec], with [len(rl.Policies)] and [len(rl.URLs)] *)
  ratelimiter_Spec : Type;
  ratelimiter_Policies_len : ratelimiter_Spec → Z;
  ratelimiter_URLs_len : ratelimiter_Spec → Z;
  (** [circuitbreaker.Spec], with [len(cb.Policies)] and [len(cb.URLs)] *)
  circuitbreaker_Spec : Type;
  circuitbreaker_Policies_len : circuitbreaker_Spec → Z;
  circuitbreaker_URLs_len : circuitbreaker_Spec → Z;
  (** [retryer.Spec], with [len(r.Policies)] and [len(r.URLs)] *)
  retryer_Spec : Type;
  retryer_Policies_len : retryer_Spec → Z;
  retryer_URLs_len : retryer_Spec → Z;
  (** [timelimiter.Spec], with [len(tl.URLs)] *)
  timelimiter_Spec : Type;
  timelimiter_URLs_len : timelimiter_Spec → Z;
  (** [*urlrule.StringMatch] and [*urlrule.URLRule] *)
  urlrule_StringMatch : Type;
  urlrule_URLRule : Type;
  (** [proxy.LoadBalance], and the value
      [proxy.LoadBalance{Policy: proxy.PolicyRoundRobin}] *)
  proxy_LoadBalance : Type;
  proxy_roundRobin : proxy_LoadBalance;
  (** [mvccpb.KeyValue], with its field [Version] *)
  mvccpb_KeyValue : Type;
  mvccpb_Version : mvccpb_KeyValue → Z;
  (** The constants [Kind] of the packages [httppipeline], [ratelimiter],
      [circuitbreaker], [retryer], [mock], [timelimiter] and [proxy] *)
  httppipeline_Kind : string;
  ratelimiter_Kind : string;
  circuitbreaker_Kind : string;
  retryer_Kind : string;
  mock_Kind : string;
  timelimiter_Kind : string;
  proxy_Kind : string
}.

(** ** Package [spec] *)

Module spec.

Definition GlobalTenant : string := "global".
Definition ServiceStatusUp : string := "UP".
Definition ServiceStatusOutOfService : string := "OUT_OF_SERVICE".

(** The errors of the package, and the errors made by [fmt.Errorf]. *)
Inductive error : Type :=
| ErrParamNotMatch
| ErrAlreadyRegistered
| ErrNoRegisteredYet
| ErrServiceNotFound
| ErrServiceNotavailable
| Errorf (msg : string).

Section types.

Context `{External}.

Record Mock : Type := mkMock {
  Mock_Enabled : bool;
  Mock_Rules : list mock_Rule
}.

Record Resilience : Type := mkResilience {
  RateLimiter : option ratelimiter_Spec;
  CircuitBreaker : option circuitbreaker_Spec;
  Retryer : option retryer_Spec;
  TimeLimiter : option timelimiter_Spec
}.

Record CanaryRule : Type := mkCanaryRule {
  ServiceInstanceLabels : gmap string string;
  Headers : gmap string urlrule_StringMatch;
  URLs : list urlrule_URLRule
}.

(** [CanaryRules []*CanaryRule]: an entry can be nil. *)
Record Canary : Type := mkCanary {
  CanaryRules : list (option CanaryRule)
}.

Record Sidecar : Type := mkSidecar {
  DiscoveryType : string;
  Address : string;
  IngressPort : Z;
  IngressProtocol : string;
  EgressPort : Z;
  EgressProtocol : string
}.

(** The field [Observability] of [Service] is left out: no function of the
    file reads it. *)
Record Service : Type := mkService {
  CreatedBy : string;
  Name : string;
  RegisterTenant : string;
  Service_Sidecar : option Sidecar;
  Service_Mock : option Mock;
  Service_Resilience : option Resilience;
  Service_Canary : option Canary;
  Service_LoadBalance : option proxy_LoadBalance
}.

Record Tenant : Type := mkTenant {
  Tenant_Name : string;
  Services : list string;
  CreatedAt : string;
  Description : string
}.

Record ServiceInstanceSpec : Type := mkServiceInstanceSpec {
  RegistryName : string;
  ServiceName : string;
  InstanceID : string;
  IP : string;
  Port : Z;
  RegistryTime : string;
  Labels : gmap string string;
  Status : string
}.

(** [fmt.Sprintf("%s/%s/%s", ...)] *)
Definition Key (s : ServiceInstanceSpec) : string :=
  RegistryName s +:+ "/" +:+ ServiceName s +:+ "/" +:+ InstanceID s.

Definition EgressHTTPServerName (s : Service) : string :=
  "mesh-egress-server-" +:+ Name s.

Definition EgressHandlerName (s : Service) : string :=
  "mesh-egress-handler-" +:+ Name s.

Definition EgressPipelineName (s : Service) : string :=
  "mesh-egress-pipeline-" +:+ Name s.

Definition IngressHTTPServerName (s : Service) : string :=
  "mesh-ingress-server-" +:+ Name s.

Definition IngressHandlerName (s : Service) : string :=
  "mesh-ingress-handler-" +:+ Name s.

Definition IngressPipelineName (s : Service) : string :=
  "mesh-ingress-pipeline-" +:+ Name s.

Definition Runnable (s : Service) : bool :=
  match Service_Mock s with
  | Some m => if Mock_Enabled m then false else true
  | None => true
  end.

(** The first loop of [UniqueCanaryHeaders], for one rule: every header
    name of the rule is entered in [keys]. *)
Definition collect_headers (keys : gmap string bool)
    (canaryRule : option CanaryRule) : gmap string bool :=
  match canaryRule with
  | Some rule => map_fold (λ k _ keys, <[k := true]> keys) keys (Headers rule)
  | None => keys
  end.

(** [UniqueCanaryHeaders]; the second loop ranges over [keys] in an order
    the language leaves open. *)
Definition UniqueCanaryHeaders (s : Service) : list string :=
  match Service_Canary s with
  | None => []
  | Some canary =>
      if decide (length (CanaryRules canary) = 0) then []
      else
        let keys := foldl collect_headers ∅ (CanaryRules canary) in
        map_fold (λ k _ headers, headers ++ [k]) [] keys
  end.

(** [fmt.Sprintf("%s://%s:%d", ...)] *)
Definition endpoint (protocol address : string) (port : Z) : string :=
  protocol +:+ "://" +:+ address +:+ ":" +:+ pretty port.

(** [ApplicationEndpoint]; reading [s.Sidecar] panics when the sidecar is
    nil. *)
Definition ApplicationEndpoint (s : Service) (port : Z) : result string :=
  match Service_Sidecar s with
  | None => Panic "nil pointer dereference"
  | Some sc => Ok (endpoint (IngressProtocol sc) (Address sc) port)
  end.

End types.

End spec.

(** ** Package [registrycenter]: instance identifiers *)

Module registrycenter.

(** [fmt.Sprintf("ins-%s-01", serviceName)] *)
Definition UniqInstanceID (serviceName : string) : string :=
  "ins-" +:+ serviceName +:+ "-01".

(** [GetServiceName]: [names[2]] when the split has three pieces. *)
Definition GetServiceName (instanceID : string) : string :=
  let names := Strings.Split instanceID "-"%char in
  if decide (length names ≠ 3) then ""
  else default "" (names !! 2).

End registrycenter.

(** ** Package [registrycenter]: discovery

    The declaration of [Server] is not part of the sources. The record
    holds the fields that the functions of discovery.go read, and the two
    methods of [rcs.service] that they call, as functions of the key: each
    returns nil ([None]) when it finds nothing. Logging is left out. *)

Module Server.

(** The conversion [uint32(x)] of an [int]: the low 32 bits of [x]. *)
Definition uint32 (x : Z) : Z := (x mod 2 ^ 32)%Z.

Section discovery.

Context `{External}.

Import spec.

Record ServiceRegistryInfo : Type := mkServiceRegistryInfo {
  Service : spec.Service;
  Ins : ServiceInstanceSpec;
  Version : Z
}.

(** [tenantInfo]: [getTenants] stores a tenant that is not nil; the key
    value [info] that came with it can be nil. *)
Record tenantInfo : Type := mkTenantInfo {
  tenant : Tenant;
  info : option mvccpb_KeyValue
}.

Record t : Type := mk {
  registered : bool;
  rcs_tenant : string;
  serviceName : string;
  GetTenantSpecWithInfo : string → option Tenant * option mvccpb_KeyValue;
  GetServiceSpec : string → option spec.Service
}.

(** [defaultInstance]; reading [self.Sidecar] panics when it is nil. *)
Definition defaultInstance (self target : spec.Service)
    : result ServiceInstanceSpec :=
  match Service_Sidecar self with
  | None => Panic "nil pointer dereference"
  | Some sidecar =>
      Ok {| RegistryName := "";
            ServiceName := Name target;
            InstanceID := registrycenter.UniqInstanceID (Name target);
            IP := Address sidecar;
            Port := uint32 (EgressPort sidecar);
            RegistryTime := "";
            Labels := ∅;
            Status := "" |}
  end.

Definition getTenants (rcs : t) (tenantNames : list string)
    : gmap string tenantInfo :=
  foldl (λ tenantInfos v,
           match GetTenantSpecWithInfo rcs v with
           | (Some tenant, info) =>
               <[v := {| tenant := tenant; info := info |}]> tenantInfos
           | (None, _) => tenantInfos
           end)
        ∅ tenantNames.

(** The error of [fmt.Errorf("BUG: can't find service: %s's registry
    tenant: %s", rcs.serviceName, rcs.tenant)]. *)
Definition tenant_missing (rcs : t) : error :=
  Errorf ("BUG: can't find service: " +:+ serviceName rcs
          +:+ "'s registry tenant: " +:+ rcs_tenant rcs).

(** The loop of [DiscoveryService] over the services of the global
    tenant: [inGlobal] is set at the first service of the given name and
    the loop is left. *)
Definition inGlobal_loop (name : string) (services : list string) : bool :=
  foldl (λ inGlobal v, inGlobal || bool_decide (v = name)) false services.

(** The body of [DiscoveryService]: the nil pointers are [None], an error
    that is nil is [None]. *)
Definition DiscoveryService_body (rcs : t) (name : string)
    : result (option ServiceRegistryInfo * option error) :=
  if negb (registered rcs) then Ok (None, Some ErrNoRegisteredYet)
  else
    let tenants := getTenants rcs [GlobalTenant; rcs_tenant rcs] in
    match GetServiceSpec rcs name with
    | None => Ok (None, Some ErrServiceNotFound)
    | Some target =>
        match GetServiceSpec rcs (serviceName rcs) with
        | None => Ok (None, Some ErrNoRegisteredYet)
        | Some self =>
            let inGlobal :=
              match tenants !! GlobalTenant with
              | Some globalTenant =>
                  inGlobal_loop name (Services (tenant globalTenant))
              | None => false
              end in
            match tenants !! rcs_tenant rcs with
            | None => Ok (None, Some (tenant_missing rcs))
            | Some own =>
                if negb inGlobal
                   && bool_decide (RegisterTenant target ≠ rcs_tenant rcs)
                then Ok (None, Some ErrServiceNotFound)
                else
                  match defaultInstance self target with
                  | Panic msg => Panic msg
                  | Ok ins =>
                      match info own with
                      | None => Panic "nil pointer dereference"
                      | Some kv =>
                          Ok (Some {| Service := target; Ins := ins;
                                      Version := mvccpb_Version kv |},
                              None)
                      end
                  end
            end
        end
    end.

(** [DiscoveryService]: the deferred function recovers from a panic, and
    the call then returns the zero values of its results. *)
Definition DiscoveryService (rcs : t) (name : string)
    : option ServiceRegistryInfo * option error :=
  match DiscoveryService_body rcs name with
  | Ok r => r
  | Panic _ => (None, None)
  end.

(** One iteration of the last loop of [Discovery], for the key [k] of
    [visibleServices]: a service that is not found is skipped. *)
Definition Discovery_step (rcs : t) (self : spec.Service) (version : Z)
    (k : string) (serviceInfos : result (list ServiceRegistryInfo))
    : result (list ServiceRegistryInfo) :=
  match serviceInfos with
  | Panic msg => Panic msg
  | Ok infos =>
      let found :=
        if decide (k = serviceName rcs) then Some self
        else GetServiceSpec rcs k in
      match found with
      | None => Ok infos
      | Some service =>
          match defaultInstance self service with
          | Panic msg => Panic msg
          | Ok ins =>
              Ok (infos ++ [{| Service := service; Ins := ins;
                               Version := version |}])
          end
      end
  end.

(** The body of [Discovery]. The last loop ranges over the keys of
    [visibleServices] in an order the language leaves open. *)
Definition Discovery_body (rcs : t)
    : result (list ServiceRegistryInfo * option error) :=
  if negb (registered rcs) then Ok ([], Some ErrNoRegisteredYet)
  else
    match GetServiceSpec rcs (serviceName rcs) with
    | None => Ok ([], Some ErrNoRegisteredYet)
    | Some self =>
        let tenantInfos := getTenants rcs [GlobalTenant; rcs_tenant rcs] in
        let global : result (Z * gmap string bool) :=
          match tenantInfos !! GlobalTenant with
          | Some globalTenant =>
              match info globalTenant with
              | None => Panic "nil pointer dereference"
              | Some kv =>
                  Ok (mvccpb_Version kv,
                      foldl (λ visibleServices v,
                               if decide (v ≠ serviceName rcs)
                               then <[v := true]> visibleServices
                               else visibleServices)
                            ∅ (Services (tenant globalTenant)))
              end
          | None => Ok (0%Z, ∅)
          end in
        match global with
        | Panic msg => Panic msg
        | Ok (version, visibleServices) =>
            match tenantInfos !! rcs_tenant rcs with
            | None => Ok ([], Some (tenant_missing rcs))
            | Some own =>
                match info own with
                | None => Panic "nil pointer dereference"
                | Some kv =>
                    let version :=
                      if (mvccpb_Version kv >? version)%Z
                      then mvccpb_Version kv else version in
                    let visibleServices :=
                      foldl (λ visibleServices v,
                               <[v := true]> visibleServices)
                            visibleServices (Services (tenant own)) in
                    match map_fold (λ k _, Discovery_step rcs self version k)
                                   (Ok []) visibleServices with
                    | Panic msg => Panic msg
                    | Ok serviceInfos => Ok (serviceInfos, None)
                    end
                end
            end
        end
    end.

Definition Discovery (rcs : t)
    : list ServiceRegistryInfo * option error :=
  match Discovery_body rcs with
  | Ok r => r
  | Panic _ => ([], None)
  end.

End discovery.

End Server.

(** ** Package [spec]: the pipeline builder

    A filter of a pipeline is a [map[string]interface{}]: a map from keys
    to the values that the builder puts in. A value taken from a spec of
    another package is named by the spec and the field it is read from. *)

Module pipeline.

Section builder.

Context `{External}.

Import spec.

(** [httpfilter.Spec{Headers: ..., URLs: ...}] *)
Record httpfilter_Spec : Type := mkHttpfilterSpec {
  filter_Headers : gmap string urlrule_StringMatch;
  filter_URLs : list urlrule_URLRule
}.

(** [proxy.PoolSpec], with the fields that the builder sets; a server
    [&proxy.Server{URL: u}] is its URL. *)
Record PoolSpec : Type := mkPoolSpec {
  Pool_Filter : option httpfilter_Spec;
  ServersTags : list string;
  Servers : list string;
  ServiceRegistry : string;
  Pool_ServiceName : string;
  LoadBalance : proxy_LoadBalance
}.

Inductive value : Type :=
| VString (s : string)
| VRateLimiterPolicies (rl : ratelimiter_Spec)
| VRateLimiterDefaultPolicyRef (rl : ratelimiter_Spec)
| VRateLimiterURLs (rl : ratelimiter_Spec)
| VCircuitBreakerPolicies (cb : circuitbreaker_Spec)
| VCircuitBreakerDefaultPolicyRef (cb : circuitbreaker_Spec)
| VCircuitBreakerURLs (cb : circuitbreaker_Spec)
| VRetryerPolicies (r : retryer_Spec)
| VRetryerDefaultPolicyRef (r : retryer_Spec)
| VRetryerURLs (r : retryer_Spec)
| VMockRules (m : list mock_Rule)
| VTimeLimiterDefaultTimeoutDuration (tl : timelimiter_Spec)
| VTimeLimiterURLs (tl : timelimiter_Spec)
| VPool (pool : PoolSpec)
| VPools (pools : list PoolSpec).

(** [httppipeline.Flow{Filter: name}] *)
Record Flow : Type := mkFlow { Filter : string }.

(** [pipelineSpecBuilder], with the fields [Flow] and [Filters] of the
    inlined [httppipeline.Spec]. *)
Record pipelineSpecBuilder : Type := mkBuilder {
  Kind : string;
  Builder_Name : string;
  Builder_Flow : list Flow;
  Filters : list (gmap string value)
}.

Definition newPipelineSpecBuilder (name : string) : pipelineSpecBuilder :=
  {| Kind := httppipeline_Kind; Builder_Name := name;
     Builder_Flow := []; Filters := [] |}.

(** The two appends that every builder method ends with. *)
Definition append_filter (b : pipelineSpecBuilder) (name : string)
    (filter : gmap string value) : pipelineSpecBuilder :=
  {| Kind := Kind b; Builder_Name := Builder_Name b;
     Builder_Flow := Builder_Flow b ++ [{| Filter := name |}];
     Filters := Filters b ++ [filter] |}.

Definition appendRateLimiter (rl : option ratelimiter_Spec)
    (b : pipelineSpecBuilder) : pipelineSpecBuilder :=
  match rl with
  | None => b
  | Some rl =>
      if decide (ratelimiter_Policies_len rl = 0%Z
                 ∨ ratelimiter_URLs_len rl = 0%Z) then b
      else append_filter b "rateLimiter"
             (<["kind" := VString ratelimiter_Kind]>
              (<["name" := VString "rateLimiter"]>
               (<["policies" := VRateLimiterPolicies rl]>
                (<["defaultPolicyRef" := VRateLimiterDefaultPolicyRef rl]>
                 (<["urls" := VRateLimiterURLs rl]> ∅)))))
  end.

Definition appendCircuitBreaker (cb : option circuitbreaker_Spec)
    (b : pipelineSpecBuilder) : pipelineSpecBuilder :=
  match cb with
  | None => b
  | Some cb =>
      if decide (circuitbreaker_Policies_len cb = 0%Z
                 ∨ circuitbreaker_URLs_len cb = 0%Z) then b
      else append_filter b "circuitBreaker"
             (<["kind" := VString circuitbreaker_Kind]>
              (<["name" := VString "circuitBreaker"]>
               (<["policies" := VCircuitBreakerPolicies cb]>
                (<["defaultPolicyRef" := VCircuitBreakerDefaultPolicyRef cb]>
                 (<["urls" := VCircuitBreakerURLs cb]> ∅)))))
  end.

Definition appendRetryer (r : option retryer_Spec)
    (b : pipelineSpecBuilder) : pipelineSpecBuilder :=
  match r with
  | None => b
  | Some r =>
      if decide (retryer_Policies_len r = 0%Z
                 ∨ retryer_URLs_len r = 0%Z) then b
      else append_filter b "retryer"
             (<["kind" := VString retryer_Kind]>
              (<["name" := VString "retryer"]>
               (<["policies" := VRetryerPolicies r]>
                (<["defaultPolicyRef" := VRetryerDefaultPolicyRef r]>
                 (<["urls" := VRetryerURLs r]> ∅)))))
  end.

Definition appendMock (m : list mock_Rule) (b : pipelineSpecBuilder)
    : pipelineSpecBuilder :=
  if decide (length m = 0) then b
  else append_filter b "mock"
         (<["kind" := VString mock_Kind]>
          (<["name" := VString "mock"]>
           (<["rules" := VMockRules m]> ∅))).

Definition appendTimeLimiter (tl : option timelimiter_Spec)
    (b : pipelineSpecBuilder) : pipelineSpecBuilder :=
  match tl with
  | None => b
  | Some tl =>
      if decide (timelimiter_URLs_len tl = 0%Z) then b
      else append_filter b "timeLimiter"
             (<["kind" := VString timelimiter_Kind]>
              (<["name" := VString "timeLimiter"]>
               (<["defaultTimeout" := VTimeLimiterDefaultTimeoutDuration tl]>
                (<["urls" := VTimeLimiterURLs tl]> ∅))))
  end.

(** [lb], or round robin when [lb] is nil. *)
Definition or_roundRobin (lb : option proxy_LoadBalance) : proxy_LoadBalance :=
  match lb with
  | Some lb => lb
  | None => proxy_roundRobin
  end.

Definition appendProxy (mainServers : list string)
    (lb : option proxy_LoadBalance) (b : pipelineSpecBuilder)
    : pipelineSpecBuilder :=
  append_filter b "backend"
    (<["kind" := VString proxy_Kind]>
     (<["name" := VString "backend"]>
      (<["mainPool" :=
           VPool {| Pool_Filter := None; ServersTags := [];
                    Servers := mainServers; ServiceRegistry := "";
                    Pool_ServiceName := "";
                    LoadBalance := or_roundRobin lb |}]> ∅))).

(** [fmt.Sprintf("http://%s:%d", ins.IP, ins.Port)] *)
Definition server_url (ins : ServiceInstanceSpec) : string :=
  "http://" +:+ IP ins +:+ ":" +:+ pretty (Port ins).

(** The first loop of [appendProxyWithCanary]: an instance that is up goes
    to the main servers when it has no label, and to the canary instances
    when it has one. *)
Definition sort_instance
    (acc : list string * list ServiceInstanceSpec)
    (instanceSpec : ServiceInstanceSpec)
    : list string * list ServiceInstanceSpec :=
  if decide (Status instanceSpec = ServiceStatusUp)
  then if decide (size (Labels instanceSpec) = 0)
       then (acc.1 ++ [server_url instanceSpec], acc.2)
       else (acc.1, acc.2 ++ [instanceSpec])
  else acc.

(** The innermost loop: over the labels of the instance, left at the first
    label that equals the label of the rule. *)
Definition label_found (key label : string)
    (insLabels : gmap string string) : bool :=
  map_fold (λ insKey insLabel found,
              found || (bool_decide (key = insKey)
                        && bool_decide (label = insLabel)))
           false insLabels.

(** The loop over the labels of the rule, left at the first label that the
    instance has. *)
Definition rule_matches (ruleLabels insLabels : gmap string string) : bool :=
  map_fold (λ key label matched, matched || label_found key label insLabels)
           false ruleLabels.

(** The servers of one rule: the canary instances that the rule matches,
    each once. *)
Definition rule_servers (rule : CanaryRule)
    (canaryInstances : list ServiceInstanceSpec) : list string :=
  foldl (λ servers ins,
           if rule_matches (ServiceInstanceLabels rule) (Labels ins)
           then servers ++ [server_url ins] else servers)
        [] canaryInstances.

(** One iteration of the loop over the canary rules. Reading the labels
    of a rule that is nil panics; they are read once there is a canary
    instance. *)
Definition add_candidate_pool (canaryInstances : list ServiceInstanceSpec)
    (lb : proxy_LoadBalance) (candidatePool : result (list PoolSpec))
    (v : option CanaryRule) : result (list PoolSpec) :=
  match candidatePool with
  | Panic msg => Panic msg
  | Ok pools =>
      match v with
      | None =>
          if decide (length canaryInstances = 0) then Ok pools
          else Panic "nil pointer dereference"
      | Some rule =>
          let servers := rule_servers rule canaryInstances in
          if decide (length servers ≠ 0)
          then Ok (pools ++
                   [{| Pool_Filter :=
                         Some {| filter_Headers := Headers rule;
                                 filter_URLs := URLs rule |};
                       ServersTags := [];
                       Servers := servers;
                       ServiceRegistry := "";
                       Pool_ServiceName := "";
                       LoadBalance := lb |}])
          else Ok pools
      end
  end.

(** [appendProxyWithCanary]; the instance specs are the pointees of
    [instanceSpecs]. *)
Definition appendProxyWithCanary (instanceSpecs : list ServiceInstanceSpec)
    (canary : option Canary) (lb : option proxy_LoadBalance)
    (b : pipelineSpecBuilder) : result pipelineSpecBuilder :=
  let sorted := foldl sort_instance ([], []) instanceSpecs in
  let mainServers := sorted.1 in
  let canaryInstances := sorted.2 in
  let lb := or_roundRobin lb in
  let candidatePool : result (list PoolSpec) :=
    match canary with
    | None => Ok []
    | Some canary =>
        if decide (length canaryInstances ≠ 0
                   ∧ length (CanaryRules canary) ≠ 0)
        then foldl (add_candidate_pool canaryInstances lb) (Ok [])
                   (CanaryRules canary)
        else Ok []
    end in
  match candidatePool with
  | Panic msg => Panic msg
  | Ok candidatePool =>
      Ok (append_filter b "backend"
            (<["kind" := VString proxy_Kind]>
             (<["name" := VString "backend"]>
              (<["mainPool" :=
                   VPool {| Pool_Filter := None; ServersTags := [];
                            Servers := mainServers; ServiceRegistry := "";
                            Pool_ServiceName := ""; LoadBalance := lb |}]>
               (<["candidatePools" := VPools candidatePool]> ∅)))))
  end.

(** The builder that [IngressPipelineSpec] hands to [yamlConfig]. *)
Definition IngressPipelineSpec_builder (s : Service)
    (instanceSpecs : list ServiceInstanceSpec) : result pipelineSpecBuilder :=
  appendProxyWithCanary instanceSpecs (Service_Canary s) (Service_LoadBalance s)
    (newPipelineSpecBuilder (IngressPipelineName s)).

(** The builder that [SideCarIngressPipelineSpec] hands to [yamlConfig]. *)
Definition SideCarIngressPipelineSpec_builder (s : Service)
    (applicationPort : Z) : result pipelineSpecBuilder :=
  match ApplicationEndpoint s applicationPort with
  | Panic msg => Panic msg
  | Ok url =>
      let mainServers := [url] in
      let b := newPipelineSpecBuilder (IngressPipelineName s) in
      let b := match Service_Resilience s with
               | Some resilience => appendRateLimiter (RateLimiter resilience) b
               | None => b
               end in
      Ok (appendProxy mainServers (Service_LoadBalance s) b)
  end.

(** The builder that [SideCarEgressPipelineSpec] hands to [yamlConfig]. *)
Definition SideCarEgressPipelineSpec_builder (s : Service)
    (instanceSpecs : list ServiceInstanceSpec) : result pipelineSpecBuilder :=
  let b := newPipelineSpecBuilder (EgressPipelineName s) in
  if negb (Runnable s)
  then match Service_Mock s with
       | Some m => Ok (appendMock (Mock_Rules m) b)
       | None => Panic "nil pointer dereference"
       end
  else
    let b := match Service_Resilience s with
             | Some resilience =>
                 appendCircuitBreaker (CircuitBreaker resilience)
                   (appendRetryer (Retryer resilience)
                      (appendTimeLimiter (TimeLimiter resilience) b))
             | None => b
             end in
    appendProxyWithCanary instanceSpecs (Service_Canary s)
      (Service_LoadBalance s) b.

(** The servers of the pool, or of the pools, under a key of a filter;
    used to read the examples. *)
Definition VPool_servers (filter : gmap string value) (key : string)
    : option (list string) :=
  match filter !! key with
  | Some (VPool pool) => Some (Servers pool)
  | _ => None
  end.

Definition VPools_servers (filter : gmap string value) (key : string)
    : option (list (list string)) :=
  match filter !! key with
  | Some (VPools pools) => Some (Servers <$> pools)
  | _ => None
  end.

(** What the pipeline asks of a builder: the flow names the filters, one
    by one and in their order. This is the property that the theorems
    below state of the builders, not a part of the source. *)
Definition flow_names_filters (b : pipelineSpecBuilder) : Prop :=
  Forall2 (λ flow filter, filter !! "name" = Some (VString (Filter flow)))
          (Builder_Flow b) (Filters b).

End builder.

End pipeline.

(** ** Concrete mesh values used by the examples below *)

Module MeshExamples.

(** The external types at their simplest: a resilience spec is the pair of
    the lengths of its policies and its URLs. *)
Definition plain : External :=
  {| mock_Rule := unit;
     ratelimiter_Spec := Z * Z;
     ratelimiter_Policies_len := fst;
     ratelimiter_URLs_len := snd;
     circuitbreaker_Spec := Z * Z;
     circuitbreaker_Policies_len := fst;
     circuitbreaker_URLs_len := snd;
     retryer_Spec := Z * Z;
     retryer_Policies_len := fst;
     retryer_URLs_len := snd;
     timelimiter_Spec := Z;
     timelimiter_URLs_len := id;
     urlrule_StringMatch := unit;
     urlrule_URLRule := unit;
     proxy_LoadBalance := string;
     proxy_roundRobin := "roundRobin";
     mvccpb_KeyValue := Z;
     mvccpb_Version := id;
     httppipeline_Kind := "HTTPPipeline";
     ratelimiter_Kind := "RateLimiter";
     circuitbreaker_Kind := "CircuitBreaker";
     retryer_Kind := "Retryer";
     mock_Kind := "Mock";
     timelimiter_Kind := "TimeLimiter";
     proxy_Kind := "Proxy" |}.

Definition sidecar : @spec.Sidecar :=
  {| spec.DiscoveryType := "eureka"; spec.Address := "127.0.0.1";
     spec.IngressPort := 13001; spec.IngressProtocol := "http";
     spec.EgressPort := 13002; spec.EgressProtocol := "http" |}.

(** A service with a sidecar and nothing else, registered in a tenant. *)
Definition service (name tenant : string) : @spec.Service plain :=
  {| spec.CreatedBy := ""; spec.Name := name;
     spec.RegisterTenant := tenant;
     spec.Service_Sidecar := Some sidecar;
     spec.Service_Mock := None; spec.Service_Resilience := None;
     spec.Service_Canary := None; spec.Service_LoadBalance := None |}.

Definition instance (registry service id : string)
    : @spec.ServiceInstanceSpec :=
  {| spec.RegistryName := registry; spec.ServiceName := service;
     spec.InstanceID := id; spec.IP := "10.0.0.1"; spec.Port := 8080;
     spec.RegistryTime := ""; spec.Labels := ∅; spec.Status := "UP" |}.

(** The store of a server of tenant "shop" that runs the service "cart".
    The global tenant lists "auth" and "cart"; the tenant "shop" lists
    "cart", "orders" and a service "ghost" that the store does not have. *)
Definition shop_tenants (v : string)
    : option spec.Tenant * option (@mvccpb_KeyValue plain) :=
  if decide (v = "global")
  then (Some {| spec.Tenant_Name := "global";
                spec.Services := ["auth"; "cart"];
                spec.CreatedAt := ""; spec.Description := "" |}, Some 3%Z)
  else if decide (v = "shop")
  then (Some {| spec.Tenant_Name := "shop";
                spec.Services := ["cart"; "orders"; "ghost"];
                spec.CreatedAt := ""; spec.Description := "" |}, Some 7%Z)
  else (None, None).

Definition shop_services (k : string) : option (@spec.Service plain) :=
  if decide (k = "cart") then Some (service "cart" "shop")
  else if decide (k = "orders") then Some (service "orders" "shop")
  else if decide (k = "auth") then Some (service "auth" "global")
  else if decide (k = "billing") then Some (service "billing" "bank")
  else None.

Definition shop_server : @Server.t plain :=
  {| Server.registered := true;
     Server.rcs_tenant := "shop";
     Server.serviceName := "cart";
     Server.GetTenantSpecWithInfo := shop_tenants;
     Server.GetServiceSpec := shop_services |}.

(** The same server when its own service has no sidecar. *)
Definition bare_server : @Server.t plain :=
  {| Server.registered := true;
     Server.rcs_tenant := "shop";
     Server.serviceName := "cart";
     Server.GetTenantSpecWithInfo := shop_tenants;
     Server.GetServiceSpec := λ k,
       if decide (k = "cart")
       then Some {| spec.CreatedBy := ""; spec.Name := "cart";
                    spec.RegisterTenant := "shop";
                    spec.Service_Sidecar := None;
                    spec.Service_Mock := None;
                    spec.Service_Resilience := None;
                    spec.Service_Canary := None;
                    spec.Service_LoadBalance := None |}
       else shop_services k |}.

(** A service with a mock that is switched on and has no rule. *)
Definition mocked_service : @spec.Service plain :=
  {| spec.CreatedBy := ""; spec.Name := "pay";
     spec.RegisterTenant := "shop";
     spec.Service_Sidecar := Some sidecar;
     spec.Service_Mock := Some (@spec.mkMock plain true []);
     spec.Service_Resilience := None;
     spec.Service_Canary := None; spec.Service_LoadBalance := None |}.

(** A service with the four resilience specs set: the time limiter and
    the circuit breaker have URLs and policies, the retryer has no
    policy. *)
Definition resilient_service : @spec.Service plain :=
  {| spec.CreatedBy := ""; spec.Name := "orders";
     spec.RegisterTenant := "shop";
     spec.Service_Sidecar := Some sidecar;
     spec.Service_Mock := None;
     spec.Service_Resilience :=
       Some (@spec.mkResilience plain
               (Some (1%Z, 1%Z)) (Some (2%Z, 1%Z)) (Some (0%Z, 1%Z))
               (Some 3%Z));
     spec.Service_Canary := None; spec.Service_LoadBalance := None |}.

(** An instance that is up, with the given labels. *)
Definition labelled (ip : string) (labels : gmap string string)
    : @spec.ServiceInstanceSpec :=
  {| spec.RegistryName := "eureka"; spec.ServiceName := "orders";
     spec.InstanceID := "ins-orders-01"; spec.IP := ip; spec.Port := 8080;
     spec.RegistryTime := ""; spec.Labels := labels; spec.Status := "UP" |}.

(** Three instances of a service: one without label, one labelled
    version=canary, and one labelled version=old that is out of
    service. *)
Definition three_instances : list (@spec.ServiceInstanceSpec) :=
  [ labelled "10.0.0.1" ∅;
    labelled "10.0.0.2" {["version" := "canary"]};
    {| spec.RegistryName := "eureka"; spec.ServiceName := "orders";
       spec.InstanceID := "ins-orders-01"; spec.IP := "10.0.0.3";
       spec.Port := 8080; spec.RegistryTime := "";
       spec.Labels := {["version" := "old"]};
       spec.Status := "OUT_OF_SERVICE" |} ].

(** A canary rule for the instances labelled version=canary, and one for
    the instances labelled version=beta. *)
Definition canary_rule (version : string) : @spec.CanaryRule plain :=
  @spec.mkCanaryRule plain {["version" := version]} ∅ [].

Definition two_rules : @spec.Canary plain :=
  @spec.mkCanary plain [Some (canary_rule "canary"); Some (canary_rule "beta")].

Definition nil_rule : @spec.Canary plain :=
  @spec.mkCanary plain [Some (canary_rule "canary"); None].

End MeshExamples.

(** * Properties *)

(** ** Go's saturating time difference *)

Lemma saturate_in_range (d : Z) :
  (time.minDuration ≤ d ≤ time.maxDuration)%Z → time.saturate d = d.
Proof.
  intros [Hlo Hhi]. unfold time.saturate.
  destruct (Z.ltb_spec d time.minDuration) as [Hlt|_]; [lia|].
  destruct (Z.ltb_spec time.maxDuration d) as [Hgt|_]; [lia|done].
Qed.

Lemma saturate_bounds (d : Z) :
  (time.minDuration ≤ time.saturate d ≤ time.maxDuration)%Z.
Proof.
  unfold time.saturate.
  destruct (Z.ltb_spec d time.minDuration);
    [|destruct (Z.ltb_spec time.maxDuration d)];
    unfold time.minDuration, time.maxDuration in *; lia.
Qed.

Lemma saturate_mono (d e : Z) :
  (d ≤ e)%Z → (time.saturate d ≤ time.saturate e)%Z.
Proof.
  intros Hde. unfold time.saturate.
  repeat match goal with
         | |- context [Z.ltb ?a ?b] => destruct (Z.ltb_spec a b)
         end; unfold time.minDuration, time.maxDuration in *; lia.
Qed.

(** On wall clock instants that are less than a [Duration] apart, [Sub] is
    the plain difference. *)
Lemma Sub_wall_exact (t u : time.Time) :
  time.mono t = None ∨ time.mono u = None →
  (time.minDuration ≤ time.wall t - time.wall u ≤ time.maxDuration)%Z →
  time.Sub t u = (time.wall t - time.wall u)%Z.
Proof.
  intros Hm Hr. unfold time.Sub.
  destruct (time.mono t), (time.mono u);
    try (by apply saturate_in_range); by destruct Hm.
Qed.

(** ** The loops of the status book are filters *)

Section status_book_loops.

Import memberStatusBook.

Lemma remove_loop (memberName : string) (l : list memberStatus) acc :
  foldl (remove_step memberName) acc l =
    (acc.1 ++ filter (λ ms, ms_name ms ≠ memberName) l,
     (acc.2 + Z.of_nat (length (filter (λ ms, ms_name ms = memberName) l)))%Z).
Proof.
  revert acc. induction l as [|ms l IH]; intros [kept removed]; simpl.
  - by rewrite app_nil_r, Z.add_0_r.
  - rewrite IH. unfold remove_step. rewrite !filter_cons.
    destruct (decide (ms_name ms = memberName)) as [Heq|Hne]; simpl.
    + rewrite decide_False by (intros Hc; by apply Hc).
      f_equal. lia.
    + rewrite decide_True by done. by rewrite <-app_assoc.
Qed.

Lemma cleanup_loop (now : time.Time) (d : time.Duration)
    (l : list memberStatus) acc :
  foldl (cleanup_step now d) acc l =
    (acc.1 ++ filter (λ ms, (time.Sub now (goneTime ms) ≤ d)%Z) l,
     acc.2 ++ filter (λ ms, (d < time.Sub now (goneTime ms))%Z) l).
Proof.
  revert acc. induction l as [|ms l IH]; intros [kept removed]; simpl.
  - by rewrite !app_nil_r.
  - rewrite IH. unfold cleanup_step. rewrite !filter_cons.
    destruct (Z.leb_spec (time.Sub now (goneTime ms)) d) as [Hle|Hgt]; simpl.
    + rewrite decide_True by done. rewrite decide_False by lia.
      by rewrite <-app_assoc.
    + rewrite decide_False by lia. rewrite decide_True by done.
      by rewrite <-app_assoc.
Qed.

Lemma names_loop (l : list memberStatus) (ret : list string) :
  foldl (λ ret ms, ret ++ [ms_name ms]) ret l = ret ++ (ms_name <$> l).
Proof.
  revert ret. induction l as [|ms l IH]; intros ret; simpl.
  - by rewrite app_nil_r.
  - rewrite IH. by rewrite <-app_assoc.
Qed.

Lemma remove_eq (memberName : string) (msb : t) :
  remove memberName msb =
    (Z.of_nat (length (filter (λ ms, ms_name ms = memberName) (members msb))),
     {| members := filter (λ ms, ms_name ms ≠ memberName) (members msb);
        timeout := timeout msb |}).
Proof. unfold remove. by rewrite remove_loop. Qed.

Lemma cleanup_eq (now : time.Time) (msb : t) :
  cleanup now msb =
    (filter (λ ms, (timeout msb < time.Sub now (goneTime ms))%Z) (members msb),
     {| members :=
          filter (λ ms, (time.Sub now (goneTime ms) ≤ timeout msb)%Z)
                 (members msb);
        timeout := timeout msb |}).
Proof. unfold cleanup. by rewrite cleanup_loop. Qed.

Lemma names_eq (msb : t) : names msb = ms_name <$> members msb.
Proof. unfold names. by rewrite names_loop. Qed.

Lemma filter_all {A} (P : A → Prop) `{!∀ x, Decision (P x)} (l : list A) :
  (∀ x, x ∈ l → P x) → filter P l = l.
Proof.
  induction l as [|x l IH]; intros Hall; [done|].
  rewrite filter_cons_True by (apply Hall; left).
  f_equal. apply IH. intros y Hy. apply Hall. by right.
Qed.

Lemma filter_none {A} (P : A → Prop) `{!∀ x, Decision (P x)} (l : list A) :
  (∀ x, x ∈ l → ¬ P x) → filter P l = [].
Proof.
  induction l as [|x l IH]; intros Hall; [done|].
  rewrite filter_cons_False by (apply Hall; left).
  apply IH. intros y Hy. apply Hall. by right.
Qed.

End status_book_loops.

(** ** The member status book *)

Section status_book.

Import memberStatusBook.

Lemma filter_fmap_name (P : string → Prop) `{!∀ s, Decision (P s)}
    (l : list memberStatus) :
  filter P (ms_name <$> l) = ms_name <$> filter (λ ms, P (ms_name ms)) l.
Proof.
  induction l as [|ms l IH]; [done|].
  rewrite fmap_cons, !filter_cons, IH.
  by destruct (decide (P (ms_name ms))).
Qed.

(** C9: [add] appends the record without looking at the names already
    held: the members are the old members followed by the new record, so
    [Count] grows by exactly one, every record held before is still at its
    index, and the timeout of the book is the same. *)
Theorem add_appends (status : memberStatus) (msb : t) :
  members (add status msb) = members msb ++ [status]
  ∧ Count (add status msb) = (Count msb + 1)%Z
  ∧ (∀ i ms, members msb !! i = Some ms →
             members (add status msb) !! i = Some ms)
  ∧ members (add status msb) !! length (members msb) = Some status
  ∧ timeout (add status msb) = timeout msb.
Proof.
  unfold add, Count; simpl. split_and!; try done.
  - rewrite length_app; simpl. lia.
  - intros i ms Hi. by apply lookup_app_l_Some.
  - rewrite lookup_app_r by lia. by rewrite Nat.sub_diag.
Qed.

(** C7: [remove] deletes every record whose name is the given one,
    duplicates included, and returns how many it deleted; the records that
    stay are those of the other names. When no record has the name it
    returns 0 and the book is the same, and a second [remove] of the same
    name right after the first returns 0. *)
Theorem remove_all_matching (memberName : string) (msb : t) :
  (remove memberName msb).1 =
    Z.of_nat (length (filter (λ ms, ms_name ms = memberName) (members msb)))
  ∧ (∀ ms, ms ∈ members (remove memberName msb).2 ↔
           ms ∈ members msb ∧ ms_name ms ≠ memberName)
  ∧ Count (remove memberName msb).2 =
      (Count msb - (remove memberName msb).1)%Z
  ∧ timeout (remove memberName msb).2 = timeout msb
  ∧ ((∀ ms, ms ∈ members msb → ms_name ms ≠ memberName) →
     remove memberName msb = (0%Z, msb))
  ∧ remove memberName (remove memberName msb).2 =
      (0%Z, (remove memberName msb).2).
Proof.
  rewrite !remove_eq; simpl. unfold Count; simpl. split_and!.
  - done.
  - intros ms. rewrite list_elem_of_filter. tauto.
  - pose proof (filter_app_complement
                  (λ ms, ms_name ms = memberName) (members msb)) as Hperm.
    apply Permutation_length in Hperm. rewrite length_app in Hperm.
    change (λ x : memberStatus, ¬ ms_name x = memberName)
      with (λ x : memberStatus, ms_name x ≠ memberName) in Hperm.
    lia.
  - done.
  - intros Hnone. destruct msb as [l d]; simpl in *.
    rewrite (filter_all (λ ms, ms_name ms ≠ memberName)) by done.
    rewrite (filter_none (λ ms, ms_name ms = memberName)); [done|].
    intros ms Hms Heq. by apply (Hnone ms).
  - rewrite (filter_none (λ ms, ms_name ms = memberName)).
    + rewrite (filter_all (λ ms, ms_name ms ≠ memberName)); [done|].
      by intros ms [? ?]%list_elem_of_filter.
    + by intros ms [? ?]%list_elem_of_filter.
Qed.

(** The spec's scenario for [remove]: two records named "n1" were added;
    [remove "n1"] returns 2 and leaves the third record, and the next
    [remove "n1"] returns 0. *)
Example remove_twice_n1 :
  remove "n1" Examples.twice_n1_book =
    (2%Z, Examples.gone_book)
  ∧ (remove "n1" (remove "n1" Examples.twice_n1_book).2).1 = 0%Z.
Proof. split; reflexivity. Qed.

(** C10: [remove] and [cleanup] keep the records that stay in the order
    they had: the members after [remove] are the members before with the
    records of that name filtered out, the members after [cleanup] are the
    members before with the expired records filtered out, and [names]
    after either call is a subsequence of [names] before. *)
Theorem remove_cleanup_keep_order
    (memberName : string) (now : time.Time) (msb : t) :
  members (remove memberName msb).2 =
    filter (λ ms, ms_name ms ≠ memberName) (members msb)
  ∧ names (remove memberName msb).2 =
      filter (λ s, s ≠ memberName) (names msb)
  ∧ names (remove memberName msb).2 `sublist_of` names msb
  ∧ members (cleanup now msb).2 =
      filter (λ ms, ¬ (timeout msb < time.Sub now (goneTime ms))%Z)
             (members msb)
  ∧ names (cleanup now msb).2 =
      ms_name <$>
        filter (λ ms, ¬ (timeout msb < time.Sub now (goneTime ms))%Z)
               (members msb)
  ∧ names (cleanup now msb).2 `sublist_of` names msb.
Proof.
  assert (Hkeep : ∀ l : list memberStatus,
    filter (λ ms, (time.Sub now (goneTime ms) ≤ timeout msb)%Z) l =
    filter (λ ms, ¬ (timeout msb < time.Sub now (goneTime ms))%Z) l).
  { intros l. apply list_filter_iff. intros ms. lia. }
  rewrite remove_eq, cleanup_eq, !names_eq; simpl. rewrite Hkeep.
  split_and!; try done.
  - by rewrite (filter_fmap_name (λ s, s ≠ memberName)).
  - apply fmap_sublist, sublist_filter.
  - apply fmap_sublist, sublist_filter.
Qed.

End status_book.

(** ** The sweep of the member status book *)

Section status_book_cleanup.

Import memberStatusBook.

(** C3, as stated, fails on a live record: the zero instant is more than
    any ordinary timeout before the present, so [cleanup] takes the record
    whose [goneTime] was never set out of the book and returns it as
    expired. *)
Lemma cleanup_drops_live_record :
  goneTime Examples.live_n1 = time.zero
  ∧ members Examples.live_book = [Examples.live_n1]
  ∧ cleanup Examples.t0 Examples.live_book =
      ([Examples.live_n1],
       createMemberStatusBook Examples.ten_seconds).
Proof. split_and!; reflexivity. Qed.

(** C3 (amended): [cleanup now] splits the records by the test of the
    source, [now.Sub(goneTime) <= timeout]: the records that pass stay in
    the book, in order; the records that fail are taken out and are
    exactly the ones returned; kept and returned records together are the
    records held before. The test reads [goneTime] as it is, so an unset
    [goneTime] counts as the zero instant. *)
Theorem cleanup_partition (now : time.Time) (msb : t) :
  members (cleanup now msb).2 =
    filter (λ ms, (time.Sub now (goneTime ms) ≤ timeout msb)%Z) (members msb)
  ∧ (cleanup now msb).1 =
      filter (λ ms, (timeout msb < time.Sub now (goneTime ms))%Z)
             (members msb)
  ∧ members (cleanup now msb).2 ++ (cleanup now msb).1 ≡ₚ members msb
  ∧ (∀ ms, ms ∈ members (cleanup now msb).2 ↔
           ms ∈ members msb ∧ (time.Sub now (goneTime ms) ≤ timeout msb)%Z)
  ∧ (∀ ms, ms ∈ (cleanup now msb).1 ↔
           ms ∈ members msb ∧ (timeout msb < time.Sub now (goneTime ms))%Z)
  ∧ timeout (cleanup now msb).2 = timeout msb.
Proof.
  rewrite cleanup_eq; simpl. split_and!; try done.
  - rewrite (list_filter_iff
               (λ ms, (timeout msb < time.Sub now (goneTime ms))%Z)
               (λ ms, ¬ (time.Sub now (goneTime ms) ≤ timeout msb)%Z))
      by (intros ms; lia).
    apply filter_app_complement.
  - intros ms. rewrite list_elem_of_filter. tauto.
  - intros ms. rewrite list_elem_of_filter. tauto.
Qed.

(** What the test makes of a record whose [goneTime] is unset: it stays
    exactly when the saturated distance of [now] from the zero instant is
    within the timeout. *)
Lemma cleanup_unset_goneTime (now : time.Time) (msb : t) (ms : memberStatus) :
  goneTime ms = time.zero →
  ms ∈ members msb →
  (ms ∈ members (cleanup now msb).2 ↔
     (time.saturate (time.wall now) ≤ timeout msb)%Z)
  ∧ (ms ∈ (cleanup now msb).1 ↔
     (timeout msb < time.saturate (time.wall now))%Z).
Proof.
  intros Hzero Hin. rewrite cleanup_eq; simpl.
  rewrite !list_elem_of_filter, Hzero.
  assert (Hsub : time.Sub now time.zero = time.saturate (time.wall now)).
  { unfold time.Sub, time.zero; simpl. rewrite Z.sub_0_r.
    by destruct (time.mono now). }
  rewrite Hsub. tauto.
Qed.

(** The spec's scenario for the grace window: with a timeout of ten
    seconds and a record gone at [t0], the sweep at [t0 + 9s] keeps the
    record and the sweep at [t0 + 11s] returns it. *)
Example cleanup_grace_window :
  cleanup Examples.t0_plus_9s Examples.gone_book = ([], Examples.gone_book)
  ∧ cleanup Examples.t0_plus_11s Examples.gone_book =
      ([Examples.gone_n2], createMemberStatusBook Examples.ten_seconds).
Proof. split; reflexivity. Qed.

(** C6, as stated, fails for a later [now]: after the sweep at [t0 + 9s]
    kept the record gone at [t0], a second sweep at [t0 + 11s], with no
    [add] in between, returns that record and shrinks the book. *)
Lemma cleanup_later_now_expires_more :
  (time.wall Examples.t0_plus_9s ≤ time.wall Examples.t0_plus_11s)%Z
  ∧ cleanup Examples.t0_plus_9s Examples.gone_book =
      ([], Examples.gone_book)
  ∧ cleanup Examples.t0_plus_11s
      (cleanup Examples.t0_plus_9s Examples.gone_book).2 =
      ([Examples.gone_n2], createMemberStatusBook Examples.ten_seconds).
Proof. split_and!; [by vm_compute | reflexivity | reflexivity]. Qed.

(** A sweep returns nothing and changes nothing when every record passes
    the test. *)
Lemma cleanup_nothing_expired (now : time.Time) (msb : t) :
  (∀ ms, ms ∈ members msb →
         (time.Sub now (goneTime ms) ≤ timeout msb)%Z) →
  cleanup now msb = ([], msb).
Proof.
  intros Hall. rewrite cleanup_eq. destruct msb as [l d]; simpl in *.
  rewrite (filter_all (λ ms, (time.Sub now (goneTime ms) ≤ d)%Z)) by done.
  rewrite (filter_none (λ ms, (d < time.Sub now (goneTime ms))%Z)); [done|].
  intros ms Hms. specialize (Hall ms Hms). lia.
Qed.

(** C6 (amended): a second [cleanup] with the same [now], with no [add]
    in between, returns no record and leaves the book as the first sweep
    left it. *)
Theorem cleanup_twice_same_now (now : time.Time) (msb : t) :
  cleanup now (cleanup now msb).2 = ([], (cleanup now msb).2).
Proof.
  apply cleanup_nothing_expired. intros ms.
  rewrite cleanup_eq; simpl. by intros [? ?]%list_elem_of_filter.
Qed.

End status_book_cleanup.

(** ** Random sampling from the member status book *)

Section status_book_randGet.

Import memberStatusBook.

Lemma int32_small (n : Z) : (0 ≤ n < 2 ^ 31)%Z → int32 n = n.
Proof.
  intros Hn. unfold int32.
  rewrite Z.mod_small by lia. lia.
Qed.

(** The conversion never turns a length into a larger number. *)
Lemma int32_le (n : Z) : (0 ≤ n)%Z → (int32 n ≤ n)%Z.
Proof.
  intros Hn. unfold int32.
  pose proof (Z.div_mod (n + 2 ^ 31) (2 ^ 32) ltac:(lia)) as Hdm.
  assert (0 ≤ (n + 2 ^ 31) / 2 ^ 32)%Z by (apply Z.div_pos; lia).
  lia.
Qed.

Lemma Int31n_nonpos (draw n : Z) :
  (n ≤ 0)%Z → rand.Int31n draw n = Panic "invalid argument to Int31n".
Proof.
  intros Hn. unfold rand.Int31n.
  by destruct (Z.leb_spec n 0) as [_|?]; [|lia].
Qed.

Lemma Int31n_pos (draw n : Z) :
  (0 < n)%Z → rand.Int31n draw n = Ok (draw mod n)%Z.
Proof.
  intros Hn. unfold rand.Int31n.
  by destruct (Z.leb_spec n 0) as [?|_]; [lia|].
Qed.

(** When the converted length is positive the call returns the record at
    the drawn index. *)
Lemma randGet_pos (draw : Z) (msb : t) :
  (0 < int32 (Count msb))%Z →
  ∃ ms, randGet draw msb = Ok ms
        ∧ members msb !! Z.to_nat (draw mod int32 (Count msb)) = Some ms.
Proof.
  intros Hpos. unfold randGet. fold (Count msb).
  rewrite Int31n_pos by done.
  pose proof (Z.mod_pos_bound draw (int32 (Count msb)) Hpos) as [Hlo Hhi].
  pose proof (int32_le (Count msb) ltac:(unfold Count; lia)) as Hle.
  destruct (Z.ltb_spec (draw mod int32 (Count msb)) 0) as [?|_]; [lia|].
  destruct (lookup_lt_is_Some_2 (members msb)
              (Z.to_nat (draw mod int32 (Count msb)))) as [ms Hms].
  { unfold Count in *. lia. }
  exists ms. by rewrite Hms.
Qed.

(** C5, as stated, fails on a book of 2^31 records: the book is not
    empty, yet [int32] of its length is negative and the call panics. *)
Lemma randGet_panics_on_huge_book :
  members Examples.huge_book ≠ []
  ∧ Count Examples.huge_book = (2 ^ 31)%Z
  ∧ randGet 0 Examples.huge_book = Panic "invalid argument to Int31n".
Proof.
  assert (Hlen : Z.of_nat (length (members Examples.huge_book))
                 = (2 ^ 31)%Z).
  { unfold Examples.huge_book. cbn [members].
    rewrite length_replicate. apply Z2Nat.id. lia. }
  split_and!.
  - intros Hnil. rewrite Hnil in Hlen. discriminate Hlen.
  - exact Hlen.
  - unfold randGet. rewrite Hlen.
    rewrite Int31n_nonpos; [reflexivity|]. by vm_compute.
Qed.

(** C5 (amended): on a book of at least one and fewer than 2^31 records
    [randGet] returns one of the records held, the one at the drawn
    index; on an empty book it panics and returns no record; and it
    panics exactly when [int32] of the length is not positive, so never
    on a book of that size. *)
Theorem randGet_outcome (draw : Z) (msb : t) :
  ((0 < Count msb < 2 ^ 31)%Z →
     ∃ ms, randGet draw msb = Ok ms
           ∧ ms ∈ members msb
           ∧ members msb !! Z.to_nat (draw mod Count msb) = Some ms)
  ∧ (members msb = [] →
     randGet draw msb = Panic "invalid argument to Int31n")
  ∧ ((∃ msg, randGet draw msb = Panic msg) ↔ (int32 (Count msb) ≤ 0)%Z).
Proof.
  split_and!.
  - intros Hn.
    destruct (randGet_pos draw msb) as (ms & Hget & Hms).
    { rewrite int32_small by lia. lia. }
    rewrite int32_small in Hms by lia.
    exists ms. split_and!; [done| |done].
    apply list_elem_of_lookup. by eexists.
  - intros Hnil. unfold randGet. rewrite Hnil. reflexivity.
  - split.
    + intros [msg Hpanic].
      destruct (Z.le_gt_cases (int32 (Count msb)) 0) as [|Hpos]; [done|].
      destruct (randGet_pos draw msb) as (ms & Hget & _); [lia|].
      congruence.
    + intros Hle. exists "invalid argument to Int31n".
      unfold randGet. fold (Count msb). by rewrite Int31n_nonpos.
Qed.

(** Every record of such a book is returned for some draw. *)
Lemma randGet_reaches_every_record (msb : t) (ms : memberStatus) :
  (Count msb < 2 ^ 31)%Z →
  ms ∈ members msb →
  ∃ draw, (0 ≤ draw < Count msb)%Z ∧ randGet draw msb = Ok ms.
Proof.
  intros Hlt [i Hi]%list_elem_of_lookup.
  pose proof (lookup_lt_Some _ _ _ Hi) as Hlen.
  exists (Z.of_nat i). split; [unfold Count; lia|].
  destruct (randGet_pos (Z.of_nat i) msb) as (ms' & Hget & Hms').
  { rewrite int32_small by (unfold Count in *; lia). unfold Count; lia. }
  rewrite int32_small in Hms' by (unfold Count in *; lia).
  rewrite Z.mod_small in Hms' by (unfold Count; lia).
  rewrite Nat2Z.id in Hms'. congruence.
Qed.

(** On the book of three records the draw 4 lands on index 1 and the draw
    5 on index 2; on a fresh book the call panics. *)
Example randGet_draws :
  randGet 4 Examples.twice_n1_book = Ok Examples.live_n1
  ∧ randGet 5 Examples.twice_n1_book = Ok Examples.gone_n2
  ∧ randGet 4 (createMemberStatusBook Examples.ten_seconds)
    = Panic "invalid argument to Int31n".
Proof. split_and!; reflexivity. Qed.

End status_book_randGet.

(** ** The member operation book: [save] and [get] *)

Section operation_book.

Import memberOperationBook.

Lemma save_None clock kind nodeName msgTime mob :
  operations mob !! nodeName = None →
  save clock kind nodeName msgTime mob =
    (true, accepted clock kind nodeName msgTime mob).
Proof. intros Hnone. unfold save. by rewrite Hnone. Qed.

Lemma save_newer clock kind nodeName msgTime mob op :
  operations mob !! nodeName = Some op →
  (messageTime op < msgTime)%N →
  save clock kind nodeName msgTime mob =
    (true, accepted clock kind nodeName msgTime mob).
Proof.
  intros Hsome Hlt. unfold save. rewrite Hsome.
  by destruct (N.ltb_spec (messageTime op) msgTime); [|lia].
Qed.

Lemma save_not_newer clock kind nodeName msgTime mob op :
  operations mob !! nodeName = Some op →
  (msgTime ≤ messageTime op)%N →
  save clock kind nodeName msgTime mob = (false, mob).
Proof.
  intros Hsome Hle. unfold save. rewrite Hsome.
  by destruct (N.ltb_spec (messageTime op) msgTime); [lia|].
Qed.

Lemma save_true_book clock kind nodeName msgTime mob :
  (save clock kind nodeName msgTime mob).1 = true →
  (save clock kind nodeName msgTime mob).2 =
    accepted clock kind nodeName msgTime mob.
Proof.
  unfold save. destruct (operations mob !! nodeName) as [op|]; [|done].
  by destruct (messageTime op <? msgTime)%N.
Qed.

Lemma save_false_book clock kind nodeName msgTime mob :
  (save clock kind nodeName msgTime mob).1 = false →
  (save clock kind nodeName msgTime mob).2 = mob.
Proof.
  unfold save. destruct (operations mob !! nodeName) as [op|]; [|done].
  by destruct (messageTime op <? msgTime)%N.
Qed.

(** C1: [save] returns true exactly when the node has no record or the
    logical time of its record is strictly below the incoming one; the
    kind, stored or incoming, plays no part in the answer. When it returns
    true the node's record is the incoming kind and time with the clock
    reading of the call, and the rest of the book is as before; when it
    returns false, which includes an incoming time equal to the stored
    one, the book is the same. *)
Theorem save_accepts_strictly_newer
    (clock : time.Time) (kind : messageType) (nodeName : string)
    (msgTime : logicalTime) (mob : t) :
  ((save clock kind nodeName msgTime mob).1 = true ↔
     operations mob !! nodeName = None
     ∨ ∃ op, operations mob !! nodeName = Some op
             ∧ (messageTime op < msgTime)%N)
  ∧ (∀ kind', (save clock kind' nodeName msgTime mob).1 =
              (save clock kind nodeName msgTime mob).1)
  ∧ ((save clock kind nodeName msgTime mob).1 = true →
     (save clock kind nodeName msgTime mob).2 =
       {| operations :=
            <[nodeName := {| msgType := kind; messageTime := msgTime;
                             receiveTime := clock |}]> (operations mob);
          timeout := timeout mob |})
  ∧ ((save clock kind nodeName msgTime mob).1 = false →
     (save clock kind nodeName msgTime mob).2 = mob)
  ∧ (∀ op, operations mob !! nodeName = Some op →
           messageTime op = msgTime →
           save clock kind nodeName msgTime mob = (false, mob)).
Proof.
  destruct (operations mob !! nodeName) as [op|] eqn:Hlook.
  - destruct (N.lt_ge_cases (messageTime op) msgTime) as [Hlt|Hge].
    + rewrite !(save_newer _ _ _ _ _ op) by done. split_and!; try done.
      * split; [|done]. intros _. right. by exists op.
      * intros kind'. by rewrite (save_newer _ _ _ _ _ op).
      * intros op' [= <-] Heq. lia.
    + rewrite !(save_not_newer _ _ _ _ _ op) by done. split_and!; try done.
      * split; [done|]. intros [?|(op' & [= <-] & Hlt)]; [done|lia].
      * intros kind'. by rewrite (save_not_newer _ _ _ _ _ op).
  - rewrite !save_None by done. split_and!; try done.
    + split; [|done]. intros _. by left.
    + intros kind'. by rewrite save_None.
Qed.

(** [save] on the empty gate, by evaluation: the first fact about "n1" is
    accepted; the same time again is rejected, under either kind; a later
    time is accepted and replaces the record, kind included. *)
Example save_runs :
  save Examples.t0 "join" "n1" 5%N Examples.empty_gate
    = (true, accepted Examples.t0 "join" "n1" 5%N Examples.empty_gate)
  ∧ save Examples.t0_plus_9s "join" "n1" 5%N
      (accepted Examples.t0 "join" "n1" 5%N Examples.empty_gate)
    = (false, accepted Examples.t0 "join" "n1" 5%N Examples.empty_gate)
  ∧ save Examples.t0_plus_9s "leave" "n1" 5%N
      (accepted Examples.t0 "join" "n1" 5%N Examples.empty_gate)
    = (false, accepted Examples.t0 "join" "n1" 5%N Examples.empty_gate)
  ∧ save Examples.t0_plus_9s "leave" "n1" 6%N
      (accepted Examples.t0 "join" "n1" 5%N Examples.empty_gate)
    = (true, accepted Examples.t0_plus_9s "leave" "n1" 6%N Examples.empty_gate).
Proof. split_and!; by vm_compute. Qed.

(** The spec's scenario for the strict comparison: the same fact saved
    twice is accepted the first time and rejected the second time. *)
Lemma save_same_time_twice clock clock' kind nodeName msgTime mob :
  (save clock kind nodeName msgTime mob).1 = true →
  save clock' kind nodeName msgTime (save clock kind nodeName msgTime mob).2
  = (false, (save clock kind nodeName msgTime mob).2).
Proof.
  intros Hacc. rewrite (save_true_book _ _ _ _ _ Hacc).
  eapply save_not_newer; simpl; [apply lookup_insert_eq|]. simpl. lia.
Qed.

(** C4: [get] answers (false, zero) when the node has no record or the
    record is of another kind, and (true, stored time) when the record is
    of the requested kind. After an accepted [save "join" "n1" 5], asking
    for "leave" gives (false, zero) and asking for "join" gives
    (true, 5). *)
Theorem get_only_of_same_kind
    (nodeName : string) (kind : messageType) (mob : t) :
  (operations mob !! nodeName = None →
   get nodeName kind mob = (false, zeroLogicalTime))
  ∧ (∀ op, operations mob !! nodeName = Some op → msgType op ≠ kind →
           get nodeName kind mob = (false, zeroLogicalTime))
  ∧ (∀ op, operations mob !! nodeName = Some op → msgType op = kind →
           get nodeName kind mob = (true, messageTime op))
  ∧ (∀ clock, (save clock "join" "n1" 5%N mob).1 = true →
       get "n1" "leave" (save clock "join" "n1" 5%N mob).2
         = (false, zeroLogicalTime)
       ∧ get "n1" "join" (save clock "join" "n1" 5%N mob).2 = (true, 5%N)).
Proof.
  split_and!.
  - intros Hnone. unfold get. by rewrite Hnone.
  - intros op Hsome Hkind. unfold get. rewrite Hsome.
    by rewrite decide_True.
  - intros op Hsome Hkind. unfold get. rewrite Hsome.
    rewrite decide_False; [done|]. intros Hne. by apply Hne.
  - intros clock Hacc.
    rewrite (save_true_book _ _ _ _ _ Hacc). unfold get; simpl.
    rewrite lookup_insert_eq. simpl. split; reflexivity.
Qed.

(** The same on the empty gate, by evaluation. *)
Example get_after_join_on_empty_gate :
  save Examples.t0 "join" "n1" 5%N Examples.empty_gate
    = (true, accepted Examples.t0 "join" "n1" 5%N Examples.empty_gate)
  ∧ get "n1" "leave"
      (save Examples.t0 "join" "n1" 5%N Examples.empty_gate).2
    = (false, zeroLogicalTime)
  ∧ get "n1" "join"
      (save Examples.t0 "join" "n1" 5%N Examples.empty_gate).2
    = (true, 5%N).
Proof. split_and!; reflexivity. Qed.

End operation_book.

(** ** The member operation book: sequences of [save] *)

Section operation_book_sequences.

Import memberOperationBook.

(** A call of [save] leaves in the slot of its node the larger of the
    stored and the incoming time, and leaves every other slot alone. *)
Lemma storedTime_save_call (N : string) (mob : t) (c : saveCall) :
  storedTime N (save_call mob c) =
    if decide (call_node c = N)
    then match storedTime N mob with
         | None => Some (call_time c)
         | Some stored => Some (N.max stored (call_time c))
         end
    else storedTime N mob.
Proof.
  unfold storedTime, save_call, save.
  destruct (decide (call_node c = N)) as [->|Hne].
  - destruct (operations mob !! N) as [op|] eqn:Hop; simpl.
    + destruct (N.ltb_spec (messageTime op) (call_time c)); simpl.
      * rewrite lookup_insert_eq; simpl. f_equal. lia.
      * rewrite Hop; simpl. f_equal. lia.
    + by rewrite lookup_insert_eq.
  - destruct (operations mob !! call_node c) as [op|]; simpl.
    + destruct (N.ltb_spec (messageTime op) (call_time c)); simpl;
        [by rewrite lookup_insert_ne|done].
    + by rewrite lookup_insert_ne.
Qed.

Lemma saves_cons (c : saveCall) (calls : list saveCall) (mob : t) :
  saves (c :: calls) mob = saves calls (save_call mob c).
Proof. reflexivity. Qed.

Lemma saves_storedTime_mono (N : string) (calls : list saveCall) :
  ∀ (mob : t) (stored : logicalTime),
    storedTime N mob = Some stored →
    ∃ stored', storedTime N (saves calls mob) = Some stored'
               ∧ (stored ≤ stored')%N.
Proof.
  induction calls as [|c calls IH]; intros mob stored Hstored.
  - exists stored. split; [done|lia].
  - rewrite saves_cons.
    pose proof (storedTime_save_call N mob c) as Hstep.
    rewrite Hstored in Hstep.
    destruct (decide (call_node c = N)).
    + destruct (IH _ _ Hstep) as (stored' & Hfinal & Hle).
      exists stored'. split; [done|lia].
    + destruct (IH _ _ Hstep) as (stored' & Hfinal & Hle).
      by exists stored'.
Qed.

Lemma saves_storedTime_keep (N : string) (calls : list saveCall) :
  ∀ (mob : t) (stored : logicalTime),
    storedTime N mob = Some stored →
    (∀ c, c ∈ calls → call_node c = N → (call_time c ≤ stored)%N) →
    storedTime N (saves calls mob) = Some stored.
Proof.
  induction calls as [|c calls IH]; intros mob stored Hstored Hold; [done|].
  rewrite saves_cons. apply IH.
  - rewrite storedTime_save_call, Hstored.
    destruct (decide (call_node c = N)) as [Hc|]; [|done].
    f_equal. specialize (Hold c ltac:(left) Hc). lia.
  - intros c' Hc'. apply Hold. by right.
Qed.

Lemma save_rejects_not_newer clock kind N msgTime mob stored :
  storedTime N mob = Some stored →
  (msgTime ≤ stored)%N →
  save clock kind N msgTime mob = (false, mob).
Proof.
  unfold storedTime. intros Hstored Hle.
  destruct (operations mob !! N) as [op|] eqn:Hop; [|done].
  injection Hstored as <-. by eapply save_not_newer.
Qed.

Lemma storedTime_accepted clock kind N msgTime mob :
  storedTime N (accepted clock kind N msgTime mob) = Some msgTime.
Proof. unfold storedTime, accepted; simpl. by rewrite lookup_insert_eq. Qed.

(** C2: over any sequence of [save] calls the logical time stored for a
    node never decreases. In particular, once [save K N t1] was accepted,
    whatever [save] calls follow, a call [save K' N t2] with [t2 <= t1]
    returns false and changes nothing; the time stored for [N] is then at
    least [t1], and it is [t1] itself when no call in between brought a
    later time for [N]. *)
Theorem stored_time_never_decreases (N : string) (mob : t) :
  (∀ calls stored,
      storedTime N mob = Some stored →
      ∃ stored', storedTime N (saves calls mob) = Some stored'
                 ∧ (stored ≤ stored')%N)
  ∧ (∀ clock K t1 calls clock' K' t2,
      (save clock K N t1 mob).1 = true →
      (t2 ≤ t1)%N →
      save clock' K' N t2 (saves calls (save clock K N t1 mob).2)
        = (false, saves calls (save clock K N t1 mob).2)
      ∧ (∃ stored,
           storedTime N (saves calls (save clock K N t1 mob).2)
             = Some stored
           ∧ (t1 ≤ stored)%N)
      ∧ ((∀ c, c ∈ calls → call_node c = N → (call_time c ≤ t1)%N) →
         storedTime N (saves calls (save clock K N t1 mob).2) = Some t1
         ∧ storedTime N
             (save clock' K' N t2
                (saves calls (save clock K N t1 mob).2)).2 = Some t1)).
Proof.
  split.
  - intros calls stored. apply saves_storedTime_mono.
  - intros clock K t1 calls clock' K' t2 Hacc Hle.
    rewrite (save_true_book _ _ _ _ _ Hacc).
    destruct (saves_storedTime_mono N calls _ _
                (storedTime_accepted clock K N t1 mob))
      as (stored & Hstored & Hge).
    assert (Hrej : save clock' K' N t2
                     (saves calls (accepted clock K N t1 mob))
                   = (false, saves calls (accepted clock K N t1 mob))).
    { eapply save_rejects_not_newer; [exact Hstored|lia]. }
    split_and!.
    + exact Hrej.
    + by exists stored.
    + intros Hold. rewrite Hrej; simpl.
      assert (storedTime N (saves calls (accepted clock K N t1 mob))
              = Some t1) as Hkeep.
      { apply saves_storedTime_keep; [apply storedTime_accepted|done]. }
      done.
Qed.

(** The scenario on the empty gate: "join" for "n1" at time 5 is
    accepted; after a fact about "n2" and an older fact about "n1", a
    "leave" for "n1" at time 3 is rejected and the stored time is 5. *)
Lemma stored_time_never_decreases_witness :
  save Examples.t0_plus_11s "leave" "n1" 3%N
    (saves Examples.later_calls
       (save Examples.t0 "join" "n1" 5%N Examples.empty_gate).2)
  = (false,
     saves Examples.later_calls
       (save Examples.t0 "join" "n1" 5%N Examples.empty_gate).2)
  ∧ storedTime "n1"
      (save Examples.t0_plus_11s "leave" "n1" 3%N
         (saves Examples.later_calls
            (save Examples.t0 "join" "n1" 5%N Examples.empty_gate).2)).2
    = Some 5%N.
Proof.
  destruct (stored_time_never_decreases "n1" Examples.empty_gate)
    as [_ Hlater].
  destruct (Hlater Examples.t0 "join" 5%N Examples.later_calls
              Examples.t0_plus_11s "leave" 3%N)
    as (Hrej & _ & Hkeep).
  - reflexivity.
  - by vm_compute.
  - split; [exact Hrej|].
    apply Hkeep. intros c Hc Hnode.
    apply list_elem_of_In in Hc. simpl in Hc.
    destruct Hc as [<-|[<-|[]]]; by vm_compute.
Defined.

End operation_book_sequences.

(** ** The sweep of the member operation book *)

Section operation_book_cleanup.

Import memberOperationBook.

(** The loop over the entries [m], run on the map [base]: a key whose
    entry in [m] is older than [d] is deleted, every other key is as in
    [base]. No step touches the key of another entry, which is why the
    order of the iteration does not show. *)
Lemma cleanup_loop_lookup (now : time.Time) (d : time.Duration)
    (base m : gmap string memberOperation) (nodeName : string) :
  map_fold (cleanup_step now d) base m !! nodeName =
    match m !! nodeName with
    | Some operation =>
        if (time.Sub now (receiveTime operation) >? d)%Z then None
        else base !! nodeName
    | None => base !! nodeName
    end.
Proof.
  revert nodeName.
  apply (map_fold_weak_ind (λ r m, ∀ nodeName,
    r !! nodeName =
      match m !! nodeName with
      | Some operation =>
          if (time.Sub now (receiveTime operation) >? d)%Z then None
          else base !! nodeName
      | None => base !! nodeName
      end)).
  - intros nodeName. by rewrite lookup_empty.
  - intros i op m' r Hfresh IH nodeName. unfold cleanup_step.
    destruct (decide (i = nodeName)) as [->|Hne].
    + rewrite lookup_insert_eq.
      destruct (time.Sub now (receiveTime op) >? d)%Z.
      * by rewrite lookup_delete_eq.
      * by rewrite IH, Hfresh.
    + rewrite lookup_insert_ne by done.
      destruct (time.Sub now (receiveTime op) >? d)%Z.
      * by rewrite lookup_delete_ne.
      * apply IH.
Qed.

Lemma cleanup_lookup (now : time.Time) (mob : t) (nodeName : string) :
  operations (cleanup now mob) !! nodeName =
    match operations mob !! nodeName with
    | Some operation =>
        if (time.Sub now (receiveTime operation) >? timeout mob)%Z
        then None else Some operation
    | None => None
    end.
Proof.
  unfold cleanup; simpl. rewrite cleanup_loop_lookup.
  destruct (operations mob !! nodeName) as [op|]; [|done].
  by destruct (time.Sub now (receiveTime op) >? timeout mob)%Z.
Qed.

(** C8: the sweep of the gate deletes exactly the records with
    [now.Sub(receiveTime) > timeout] and keeps every other record as it
    is; the test reads the receive time alone, not the logical time and
    not the kind. The timeout of the gate is the same afterwards. *)
Theorem gate_cleanup_evicts_by_receive_time (now : time.Time) (mob : t) :
  (∀ nodeName,
      operations (cleanup now mob) !! nodeName =
        match operations mob !! nodeName with
        | Some operation =>
            if (time.Sub now (receiveTime operation) >? timeout mob)%Z
            then None else Some operation
        | None => None
        end)
  ∧ (∀ nodeName operation,
       operations mob !! nodeName = Some operation →
       (timeout mob < time.Sub now (receiveTime operation))%Z →
       operations (cleanup now mob) !! nodeName = None)
  ∧ (∀ nodeName operation,
       operations mob !! nodeName = Some operation →
       (time.Sub now (receiveTime operation) ≤ timeout mob)%Z →
       operations (cleanup now mob) !! nodeName = Some operation)
  ∧ (∀ nodeName operation,
       operations (cleanup now mob) !! nodeName = Some operation ↔
       operations mob !! nodeName = Some operation
       ∧ (time.Sub now (receiveTime operation) ≤ timeout mob)%Z)
  ∧ operations (cleanup now mob) =
      filter (λ entry, (time.Sub now (receiveTime entry.2) ≤ timeout mob)%Z)
             (operations mob)
  ∧ timeout (cleanup now mob) = timeout mob.
Proof.
  assert (Hiff : ∀ nodeName operation,
    operations (cleanup now mob) !! nodeName = Some operation ↔
    operations mob !! nodeName = Some operation
    ∧ (time.Sub now (receiveTime operation) ≤ timeout mob)%Z).
  { intros nodeName operation. rewrite cleanup_lookup.
    destruct (operations mob !! nodeName) as [op|].
    - destruct (Z.gtb_spec (time.Sub now (receiveTime op)) (timeout mob)).
      + split; [done|]. intros [Heq Hle]. injection Heq as ->. lia.
      + split.
        * intros Heq. injection Heq as ->. split; [done|lia].
        * by intros [Heq _].
    - split; [done|]. by intros [Heq _]. }
  split_and!.
  - apply cleanup_lookup.
  - intros nodeName operation Hsome Hold. rewrite cleanup_lookup, Hsome.
    by destruct (Z.gtb_spec (time.Sub now (receiveTime operation))
                            (timeout mob)); [|lia].
  - intros nodeName operation Hsome Hrecent. by apply Hiff.
  - exact Hiff.
  - apply map_eq. intros nodeName. apply option_eq. intros operation.
    rewrite Hiff.
    by rewrite (map_lookup_filter_Some
      (λ entry : string * memberOperation,
         (time.Sub now (receiveTime entry.2) ≤ timeout mob)%Z)).
  - done.
Qed.

(** A gate with a record received at [t0] and one received at
    [t0 + 11s], swept at [t0 + 12s] with a timeout of ten seconds: the
    first record goes although its logical time is the larger one, the
    second stays. *)
Example gate_cleanup_two_nodes :
  messageTime <$> operations Examples.two_nodes_gate !! "n1" = Some 7%N
  ∧ messageTime <$> operations Examples.two_nodes_gate !! "n2" = Some 2%N
  ∧ operations (cleanup Examples.t0_plus_12s Examples.two_nodes_gate) !! "n1"
    = None
  ∧ operations (cleanup Examples.t0_plus_12s Examples.two_nodes_gate) !! "n2"
    = operations Examples.two_nodes_gate !! "n2".
Proof. split_and!; by vm_compute. Qed.

End operation_book_cleanup.

(** * Further properties of the books *)

(** ** The gate: what [save] leaves for [get] *)

Section operation_book_round_trip.

Import memberOperationBook.

Lemma get_accepted_same clock kind nodeName msgTime mob :
  get nodeName kind (accepted clock kind nodeName msgTime mob)
  = (true, msgTime).
Proof.
  unfold get, accepted; simpl. rewrite lookup_insert_eq; simpl.
  rewrite decide_False; [done|]. intros Hne. by apply Hne.
Qed.

Lemma get_accepted_other_kind clock kind kind' nodeName msgTime mob :
  kind' ≠ kind →
  get nodeName kind' (accepted clock kind nodeName msgTime mob)
  = (false, zeroLogicalTime).
Proof.
  intros Hne. unfold get, accepted; simpl. rewrite lookup_insert_eq; simpl.
  rewrite decide_True; [done|]. intros Heq. by apply Hne.
Qed.

Lemma save_other_node clock kind nodeName msgTime mob nodeName' :
  nodeName' ≠ nodeName →
  operations (save clock kind nodeName msgTime mob).2 !! nodeName'
  = operations mob !! nodeName'.
Proof.
  intros Hne. unfold save.
  destruct (operations mob !! nodeName) as [op|]; simpl.
  - destruct (messageTime op <? msgTime)%N; simpl; [|done].
    by rewrite lookup_insert_ne.
  - by rewrite lookup_insert_ne.
Qed.

(** X1: after an accepted [save kind node t], [get node kind] answers
    (true, t), [get] of the same node under any other kind answers
    (false, zero), and [get] of every other node answers what it answered
    before. *)
Theorem save_then_get clock kind nodeName msgTime mob :
  (save clock kind nodeName msgTime mob).1 = true →
  get nodeName kind (save clock kind nodeName msgTime mob).2
    = (true, msgTime)
  ∧ (∀ kind', kind' ≠ kind →
       get nodeName kind' (save clock kind nodeName msgTime mob).2
       = (false, zeroLogicalTime))
  ∧ (∀ nodeName' kind', nodeName' ≠ nodeName →
       get nodeName' kind' (save clock kind nodeName msgTime mob).2
       = get nodeName' kind' mob).
Proof.
  intros Hacc. split_and!.
  - rewrite (save_true_book _ _ _ _ _ Hacc). apply get_accepted_same.
  - intros kind' Hne. rewrite (save_true_book _ _ _ _ _ Hacc).
    by apply get_accepted_other_kind.
  - intros nodeName' kind' Hne. unfold get.
    by rewrite save_other_node.
Qed.

Lemma save_then_get_witness :
  get "n1" "leave"
    (save Examples.t0_plus_9s "leave" "n1" 6%N
       (accepted Examples.t0 "join" "n1" 5%N Examples.empty_gate)).2
  = (true, 6%N)
  ∧ get "n1" "join"
      (save Examples.t0_plus_9s "leave" "n1" 6%N
         (accepted Examples.t0 "join" "n1" 5%N Examples.empty_gate)).2
    = (false, zeroLogicalTime).
Proof.
  destruct (save_then_get Examples.t0_plus_9s "leave" "n1" 6%N
              (accepted Examples.t0 "join" "n1" 5%N Examples.empty_gate))
    as (Hsame & Hother & _).
  - reflexivity.
  - split; [exact Hsame|]. apply Hother. discriminate.
Defined.

(** X2: whatever [save] answers, afterwards the node has a record whose
    logical time is at least the incoming one, the gate knows the nodes it
    knew before and that node, and the timeout is the same. *)
Theorem save_leaves_a_record clock kind nodeName msgTime mob :
  (∃ operation,
      operations (save clock kind nodeName msgTime mob).2 !! nodeName
        = Some operation
      ∧ (msgTime ≤ messageTime operation)%N)
  ∧ dom (operations (save clock kind nodeName msgTime mob).2)
    = {[nodeName]} ∪ dom (operations mob)
  ∧ timeout (save clock kind nodeName msgTime mob).2 = timeout mob.
Proof.
  unfold save.
  destruct (operations mob !! nodeName) as [op|] eqn:Hop.
  - destruct (N.ltb_spec (messageTime op) msgTime); simpl.
    + split_and!; [|by rewrite dom_insert_L|done].
      eexists. rewrite lookup_insert_eq. split; [done|simpl; lia].
    + split_and!; [by exists op| |done].
      assert (nodeName ∈ dom (operations mob)) by (apply elem_of_dom; eauto).
      apply set_eq. intros x. rewrite elem_of_union, elem_of_singleton.
      split; [tauto|]. by intros [->|?].
  - simpl. split_and!; [|by rewrite dom_insert_L|done].
    eexists. rewrite lookup_insert_eq. split; [done|simpl; lia].
Qed.

End operation_book_round_trip.

(** ** The gate after a run of [save] calls from a fresh gate *)

Section operation_book_history.

Import memberOperationBook.

Lemma saves_snoc (calls : list saveCall) (c : saveCall) (mob : t) :
  saves (calls ++ [c]) mob = save_call (saves calls mob) c.
Proof. unfold saves. by rewrite foldl_app. Qed.

(** The record a call writes when it is accepted. *)
Lemma save_call_lookup (mob : t) (c : saveCall) (N : string) :
  operations (save_call mob c) !! N =
    if decide (call_node c = N)
    then match operations mob !! N with
         | None =>
             Some {| msgType := call_kind c; messageTime := call_time c;
                     receiveTime := call_clock c |}
         | Some op =>
             if (messageTime op <? call_time c)%N
             then Some {| msgType := call_kind c; messageTime := call_time c;
                          receiveTime := call_clock c |}
             else Some op
         end
    else operations mob !! N.
Proof.
  unfold save_call.
  destruct (decide (call_node c = N)) as [<-|Hne].
  - unfold save.
    destruct (operations mob !! call_node c) as [op|] eqn:Hop; simpl.
    + destruct (messageTime op <? call_time c)%N; simpl; [|done].
      by rewrite lookup_insert_eq.
    + by rewrite lookup_insert_eq.
  - apply save_other_node. by intros ->.
Qed.

(** X3: on a gate that started empty, the record of a node is the record
    of one of the [save] calls made for that node: the earliest call among
    those with the greatest logical time, with its kind and its clock
    reading. Every earlier call for the node had a strictly smaller time,
    every later one a smaller or equal time. A node has no record exactly
    when no call was made for it. *)
Theorem fresh_gate_holds_earliest_greatest
    (d : time.Duration) (calls : list saveCall) (N : string) :
  match operations (saves calls (createMemberOperationBook d)) !! N with
  | None => ∀ c, c ∈ calls → call_node c ≠ N
  | Some op =>
      ∃ pre c post,
        calls = pre ++ c :: post
        ∧ call_node c = N
        ∧ op = {| msgType := call_kind c; messageTime := call_time c;
                  receiveTime := call_clock c |}
        ∧ (∀ c', c' ∈ pre → call_node c' = N →
                 (call_time c' < call_time c)%N)
        ∧ (∀ c', c' ∈ post → call_node c' = N →
                 (call_time c' ≤ call_time c)%N)
  end.
Proof.
  induction calls as [|c calls IH] using rev_ind.
  - simpl. rewrite lookup_empty. by intros c Hc%elem_of_nil.
  - rewrite saves_snoc, save_call_lookup.
    destruct (decide (call_node c = N)) as [Hc|Hc].
    + destruct (operations (saves calls (createMemberOperationBook d)) !! N)
        as [op|].
      * destruct IH as (pre & c0 & post & -> & Hn0 & -> & Hpre & Hpost).
        simpl. destruct (N.ltb_spec (call_time c0) (call_time c)) as [Hlt|Hge].
        -- exists (pre ++ c0 :: post), c, []. split_and!; try done.
           ++ intros c' Hc' Hn'.
              apply elem_of_app in Hc' as [Hc'|Hc'].
              ** specialize (Hpre c' Hc' Hn'). lia.
              ** apply elem_of_cons in Hc' as [->|Hc']; [done|].
                 specialize (Hpost c' Hc' Hn'). lia.
           ++ by intros c' Hc'%elem_of_nil.
        -- exists pre, c0, (post ++ [c]). split_and!; try done.
           ++ by rewrite <-app_assoc.
           ++ intros c' Hc' Hn'.
              apply elem_of_app in Hc' as [Hc'|Hc']; [by apply Hpost|].
              apply list_elem_of_singleton in Hc' as ->. done.
      * exists calls, c, []. split_and!; try done.
        -- intros c' Hc' Hn'. by destruct (IH c' Hc').
        -- by intros c' Hc'%elem_of_nil.
    + destruct (operations (saves calls (createMemberOperationBook d)) !! N)
        as [op|].
      * destruct IH as (pre & c0 & post & -> & Hn0 & -> & Hpre & Hpost).
        exists pre, c0, (post ++ [c]). split_and!; try done.
        -- by rewrite <-app_assoc.
        -- intros c' Hc' Hn'.
           apply elem_of_app in Hc' as [Hc'|Hc']; [by apply Hpost|].
           apply list_elem_of_singleton in Hc' as ->. done.
      * intros c' Hc'.
        apply elem_of_app in Hc' as [Hc'|Hc']; [by apply IH|].
        apply list_elem_of_singleton in Hc' as ->. done.
Qed.

End operation_book_history.

(** ** Sweeps at successive instants *)

(** A later reading of the same clock is at least as far from every
    instant. *)
Lemma Sub_mono_wall (t t' u : time.Time) :
  time.mono t = None → time.mono t' = None →
  (time.wall t ≤ time.wall t')%Z →
  (time.Sub t u ≤ time.Sub t' u)%Z.
Proof.
  intros Ht Ht' Hle. unfold time.Sub. rewrite Ht, Ht'.
  apply saturate_mono. lia.
Qed.

Lemma Sub_mono_both (t t' u : time.Time) (m m' : Z) :
  time.mono t = Some m → time.mono t' = Some m' →
  (time.wall t ≤ time.wall t')%Z → (m ≤ m')%Z →
  (time.Sub t u ≤ time.Sub t' u)%Z.
Proof.
  intros Ht Ht' Hwall Hmono. unfold time.Sub. rewrite Ht, Ht'.
  destruct (time.mono u); apply saturate_mono; lia.
Qed.

Section operation_book_sweeps.

Import memberOperationBook.

(** X4: the sweep makes the gate forget the order of what it evicts. When
    the record of a node is older than the timeout, then after [cleanup]
    every [save] for that node is accepted, whatever its logical time, also
    one that is not later than the evicted record's. *)
Theorem cleanup_reopens_gate now mob nodeName operation :
  operations mob !! nodeName = Some operation →
  (timeout mob < time.Sub now (receiveTime operation))%Z →
  ∀ clock kind msgTime,
    save clock kind nodeName msgTime (cleanup now mob)
    = (true, accepted clock kind nodeName msgTime (cleanup now mob)).
Proof.
  intros Hop Hold clock kind msgTime. apply save_None.
  rewrite cleanup_lookup, Hop.
  by destruct (Z.gtb_spec (time.Sub now (receiveTime operation))
                          (timeout mob)); [|lia].
Qed.

(** On [Examples.two_nodes_gate] the record of "n1" carries time 7 and was
    received at [t0]; after the sweep at [t0 + 12s] a fact of time 3 is
    accepted. *)
Lemma cleanup_reopens_gate_witness :
  (save Examples.t0_plus_12s "join" "n1" 3%N Examples.two_nodes_gate).1
  = false
  ∧ (save Examples.t0_plus_12s "join" "n1" 3%N
       (cleanup Examples.t0_plus_12s Examples.two_nodes_gate)).1 = true.
Proof.
  split; [reflexivity|].
  rewrite (cleanup_reopens_gate Examples.t0_plus_12s Examples.two_nodes_gate
             "n1" {| msgType := "join"; messageTime := 7%N;
                     receiveTime := Examples.t0 |}).
  - reflexivity.
  - reflexivity.
  - by vm_compute.
Defined.

(** X5: a sweep of the gate after an earlier sweep leaves the gate a single
    sweep at the later instant leaves; in particular a second sweep at the
    same instant changes nothing. *)
Theorem gate_cleanup_after_cleanup now now' mob :
  (∀ u, (time.Sub now u ≤ time.Sub now' u)%Z) →
  cleanup now' (cleanup now mob) = cleanup now' mob
  ∧ cleanup now (cleanup now mob) = cleanup now mob.
Proof.
  intros Hlater.
  assert (Hgen : ∀ n n', (∀ u, (time.Sub n u ≤ time.Sub n' u)%Z) →
                         cleanup n' (cleanup n mob) = cleanup n' mob).
  { intros n n' Hnn'.
    assert (Hops : operations (cleanup n' (cleanup n mob))
                   = operations (cleanup n' mob)).
    { apply map_eq. intros nodeName. rewrite !cleanup_lookup.
      change (timeout (cleanup n mob)) with (timeout mob).
      destruct (operations mob !! nodeName) as [op|]; [|done].
      destruct (Z.gtb_spec (time.Sub n (receiveTime op)) (timeout mob))
        as [Hn|Hn]; [|done].
      destruct (Z.gtb_spec (time.Sub n' (receiveTime op)) (timeout mob))
        as [Hn'|Hn']; [done|].
      specialize (Hnn' (receiveTime op)). lia. }
    unfold cleanup in *. simpl in *. by rewrite Hops. }
  split; [by apply Hgen|]. apply Hgen. intros u. lia.
Qed.

Lemma gate_cleanup_after_cleanup_witness :
  cleanup Examples.t0_plus_12s
    (cleanup Examples.t0_plus_9s Examples.two_nodes_gate)
  = cleanup Examples.t0_plus_12s Examples.two_nodes_gate.
Proof.
  apply (gate_cleanup_after_cleanup
           Examples.t0_plus_9s Examples.t0_plus_12s Examples.two_nodes_gate).
  intros u. apply Sub_mono_wall; [reflexivity|reflexivity|by vm_compute].
Defined.

End operation_book_sweeps.

Section status_book_sweeps.

Import memberStatusBook.

(** X6: a sweep of the status book after an earlier sweep keeps the
    records a single sweep at the later instant keeps, and the records the
    two sweeps return are, together, the records the single sweep returns.
    Nothing is lost or returned twice by sweeping more often. *)
Theorem status_cleanup_after_cleanup now now' msb :
  (∀ u, (time.Sub now u ≤ time.Sub now' u)%Z) →
  (cleanup now' (cleanup now msb).2).2 = (cleanup now' msb).2
  ∧ (cleanup now msb).1 ++ (cleanup now' (cleanup now msb).2).1
    ≡ₚ (cleanup now' msb).1.
Proof.
  intros Hlater. rewrite !cleanup_eq; simpl.
  destruct msb as [l d]; simpl. split.
  - f_equal. rewrite list_filter_filter. apply list_filter_iff.
    intros ms. specialize (Hlater (goneTime ms)). lia.
  - induction l as [|ms l IH]; [done|].
    rewrite !filter_cons.
    pose proof (Hlater (goneTime ms)) as Hms.
    destruct (decide (d < time.Sub now (goneTime ms))%Z) as [Hold|Hnew].
    + rewrite decide_False by lia. rewrite decide_True by lia.
      simpl. by f_equiv.
    + rewrite decide_True by lia. rewrite !filter_cons.
      destruct (decide (d < time.Sub now' (goneTime ms))%Z) as [Hold'|Hnew'].
      * simpl. rewrite <-Permutation_middle. by f_equiv.
      * done.
Qed.

Lemma status_cleanup_after_cleanup_witness :
  (cleanup Examples.t0_plus_11s
     (cleanup Examples.t0_plus_9s Examples.gone_book).2).2
  = (cleanup Examples.t0_plus_11s Examples.gone_book).2
  ∧ (cleanup Examples.t0_plus_9s Examples.gone_book).1
      ++ (cleanup Examples.t0_plus_11s
            (cleanup Examples.t0_plus_9s Examples.gone_book).2).1
    ≡ₚ (cleanup Examples.t0_plus_11s Examples.gone_book).1.
Proof.
  apply (status_cleanup_after_cleanup
           Examples.t0_plus_9s Examples.t0_plus_11s Examples.gone_book).
  intros u. apply Sub_mono_wall; [reflexivity|reflexivity|by vm_compute].
Defined.

End status_book_sweeps.

(** ** The status book: how its operations compose *)

Section status_book_composition.

Import memberStatusBook.

(** A record that [randGet] returns is held by the book, whatever the size
    of the book. *)
Lemma randGet_Ok_elem (draw : Z) (msb : t) (ms : memberStatus) :
  randGet draw msb = Ok ms → ms ∈ members msb.
Proof.
  intros Hget.
  destruct (Z.le_gt_cases (int32 (Count msb)) 0) as [Hle|Hpos].
  - unfold randGet in Hget. fold (Count msb) in Hget.
    by rewrite Int31n_nonpos in Hget.
  - destruct (randGet_pos draw msb) as (ms' & Hget' & Hlook); [lia|].
    rewrite Hget in Hget'. injection Hget' as ->.
    apply list_elem_of_lookup. by eexists.
Qed.

(** X7: a member that was removed by name is never sampled afterwards, and
    a record that a sweep returned as expired is never sampled from the
    swept book: what [randGet] returns after [cleanup now] passes the test
    of the sweep. *)
Theorem randGet_after_remove_or_cleanup (draw : Z) (msb : t) :
  (∀ memberName ms,
      randGet draw (remove memberName msb).2 = Ok ms →
      ms_name ms ≠ memberName ∧ ms ∈ members msb)
  ∧ (∀ now ms,
      randGet draw (cleanup now msb).2 = Ok ms →
      (time.Sub now (goneTime ms) ≤ timeout msb)%Z ∧ ms ∈ members msb).
Proof.
  split.
  - intros memberName ms Hget%randGet_Ok_elem.
    rewrite remove_eq in Hget; simpl in Hget.
    apply list_elem_of_filter in Hget. tauto.
  - intros now ms Hget%randGet_Ok_elem.
    rewrite cleanup_eq in Hget; simpl in Hget.
    apply list_elem_of_filter in Hget. tauto.
Qed.

(** X8: [remove] and [cleanup] commute on the book they leave, and so do
    two [remove]s: the order in which names are removed and the sweep is run
    does not show in the book. *)
Theorem remove_cleanup_commute (memberName other : string)
    (now : time.Time) (msb : t) :
  (remove memberName (cleanup now msb).2).2
    = (cleanup now (remove memberName msb).2).2
  ∧ (remove memberName (remove other msb).2).2
    = (remove other (remove memberName msb).2).2.
Proof.
  rewrite !remove_eq, !cleanup_eq; simpl.
  split; f_equal; rewrite !list_filter_filter;
    apply list_filter_iff; intros ms; tauto.
Qed.

(** X9: [names] lists one name per record, in the order of the records:
    it is as long as [Count] says, the name at an index is the name of the
    record at that index, and [add] appends the name of the new record. *)
Theorem names_follow_members (msb : t) :
  Z.of_nat (length (names msb)) = Count msb
  ∧ (∀ i, names msb !! i = ms_name <$> members msb !! i)
  ∧ (∀ status, names (add status msb) = names msb ++ [ms_name status])
  ∧ (∀ d, names (createMemberStatusBook d) = []).
Proof.
  split_and!.
  - rewrite names_eq. unfold Count. by rewrite length_fmap.
  - intros i. rewrite names_eq. apply list_lookup_fmap.
  - intros status. rewrite !names_eq. unfold add; simpl.
    by rewrite fmap_app.
  - done.
Qed.

(** X10: the number [remove] returns lies between 0 and [Count], and it is
    0 exactly when the name is not among [names], which is also exactly
    when the book stays the same. *)
Theorem remove_count_bounds (memberName : string) (msb : t) :
  (0 ≤ (remove memberName msb).1 ≤ Count msb)%Z
  ∧ ((remove memberName msb).1 = 0%Z ↔ memberName ∉ names msb)
  ∧ ((remove memberName msb).2 = msb ↔ memberName ∉ names msb).
Proof.
  assert (Habsent : memberName ∉ names msb ↔
                    ∀ ms, ms ∈ members msb → ms_name ms ≠ memberName).
  { rewrite names_eq, list_elem_of_fmap. split.
    - intros Hno ms Hms Heq. apply Hno. by exists ms.
    - intros Hall (ms & Heq & Hms). by apply (Hall ms). }
  rewrite remove_eq. cbn [fst snd]. unfold Count.
  split; [|split].
  - pose proof (length_filter (λ ms, ms_name ms = memberName) (members msb)).
    lia.
  - rewrite Habsent. split.
    + intros Hzero ms Hms Heq.
      assert (Hin : ms ∈ filter (λ ms, ms_name ms = memberName) (members msb))
        by by apply list_elem_of_filter.
      destruct (filter (λ ms, ms_name ms = memberName) (members msb));
        [by apply elem_of_nil in Hin|simpl in Hzero; lia].
    + intros Hall.
      rewrite (filter_none (λ ms, ms_name ms = memberName)); [done|].
      intros ms Hms Heq. by apply (Hall ms).
  - rewrite Habsent. destruct msb as [l d]; simpl. split.
    + intros Hsame ms Hms. injection Hsame as Hl.
      rewrite <-Hl in Hms. apply list_elem_of_filter in Hms. tauto.
    + intros Hall. f_equal.
      by rewrite (filter_all (λ ms, ms_name ms ≠ memberName)).
Qed.

(** X11: [remove] by the name of a record that was just added removes that
    record together with the records of that name held before: it returns
    one more than it would have returned before the [add], and leaves the
    same book. When the name was not among [names], it returns 1 and the
    book is the one before the [add]. *)
Theorem add_then_remove (status : memberStatus) (msb : t) :
  remove (ms_name status) (add status msb)
    = (((remove (ms_name status) msb).1 + 1)%Z,
       (remove (ms_name status) msb).2)
  ∧ (ms_name status ∉ names msb →
     remove (ms_name status) (add status msb) = (1%Z, msb)).
Proof.
  assert (Hfirst : remove (ms_name status) (add status msb)
    = (((remove (ms_name status) msb).1 + 1)%Z,
       (remove (ms_name status) msb).2)).
  { rewrite !remove_eq; simpl. rewrite !filter_app.
    rewrite !filter_cons, !filter_nil.
    rewrite decide_True by done.
    rewrite decide_False by (intros Hne; by apply Hne).
    rewrite app_nil_r, length_app; simpl. f_equal. lia. }
  split; [exact Hfirst|].
  intros Habsent. rewrite Hfirst. rewrite remove_eq; simpl.
  rewrite names_eq in Habsent.
  assert (Hall : ∀ ms, ms ∈ members msb → ms_name ms ≠ ms_name status).
  { intros ms Hms Heq. apply Habsent. apply list_elem_of_fmap. by exists ms. }
  rewrite (filter_none (λ ms, ms_name ms = ms_name status))
    by (intros ms Hms Heq; by apply (Hall ms)).
  rewrite (filter_all (λ ms, ms_name ms ≠ ms_name status)) by done.
  by destruct msb.
Qed.

End status_book_composition.

(** * Properties of the mesh controller code *)

(** ** Splitting at a byte *)

Section split.

Implicit Types (s a b : string) (sep c : ascii).

Lemma Split_length s sep :
  length (Strings.Split s sep) = S (Strings.Count s sep).
Proof.
  induction s as [|c s IH]; simpl; [done|].
  destruct (decide (c = sep)); simpl; [by rewrite IH|].
  destruct (Strings.Split s sep); simpl in *; lia.
Qed.

Lemma Count_app a b sep :
  Strings.Count (a +:+ b) sep = Strings.Count a sep + Strings.Count b sep.
Proof. induction a as [|c a IH]; simpl; [done|]. rewrite IH. lia. Qed.

Lemma Split_no_sep a sep :
  Strings.Count a sep = 0 → Strings.Split a sep = [a].
Proof.
  induction a as [|c a IH]; simpl; [done|].
  destruct (decide (c = sep)); [done|]. intros Hcount.
  by rewrite IH.
Qed.

Lemma Split_app_sep a b sep :
  Strings.Count a sep = 0 →
  Strings.Split (a +:+ String sep b) sep = a :: Strings.Split b sep.
Proof.
  induction a as [|c a IH]; simpl.
  - intros _. by rewrite decide_True.
  - destruct (decide (c = sep)); [done|]. intros Hcount.
    by rewrite IH.
Qed.

(** No piece of a split holds the separator. *)
Lemma Split_pieces_no_sep s sep piece :
  piece ∈ Strings.Split s sep → Strings.Count piece sep = 0.
Proof.
  revert piece. induction s as [|c s IH]; simpl; intros piece Hin.
  - by apply list_elem_of_singleton in Hin as ->.
  - destruct (decide (c = sep)).
    + apply elem_of_cons in Hin as [->|Hin]; [done|by apply IH].
    + destruct (Strings.Split s sep) as [|p ps].
      * apply list_elem_of_singleton in Hin as ->. simpl.
        by rewrite decide_False.
      * apply elem_of_cons in Hin as [->|Hin].
        -- simpl. rewrite decide_False by done. apply IH. by left.
        -- apply IH. by right.
Qed.

Lemma Join_Split s sep : Strings.Join (Strings.Split s sep) sep = s.
Proof.
  induction s as [|c s IH]; simpl; [done|].
  destruct (decide (c = sep)) as [->|Hne].
  - destruct (Strings.Split s sep) as [|p ps] eqn:Hs.
    + pose proof (Split_length s sep) as Hl. rewrite Hs in Hl. done.
    + rewrite <-IH. reflexivity.
  - destruct (Strings.Split s sep) as [|p [|q ps]] eqn:Hs.
    + pose proof (Split_length s sep) as Hl. rewrite Hs in Hl. done.
    + rewrite <-IH. reflexivity.
    + rewrite <-IH. reflexivity.
Qed.

(** Two strings that agree up to their first separator. *)
Lemma app_sep_inj a a' b b' sep :
  Strings.Count a sep = 0 → Strings.Count a' sep = 0 →
  a +:+ String sep b = a' +:+ String sep b' → a = a' ∧ b = b'.
Proof.
  intros Ha Ha' Heq.
  assert (Hsplit : a :: Strings.Split b sep = a' :: Strings.Split b' sep).
  { rewrite <-!Split_app_sep by done. by rewrite Heq. }
  injection Hsplit as -> _. split; [done|].
  apply (inj (String.app a')) in Heq. by injection Heq.
Qed.

End split.

(** ** Instance identifiers *)

Section instance_ids.

Import registrycenter.

Lemma GetServiceName_three (a b c : string) :
  Strings.Count a "-" = 0 → Strings.Count b "-" = 0 →
  Strings.Count c "-" = 0 →
  GetServiceName (a +:+ "-" +:+ b +:+ "-" +:+ c) = c.
Proof.
  intros Ha Hb Hc. unfold GetServiceName.
  change (a +:+ "-" +:+ b +:+ "-" +:+ c)
    with (a +:+ String "-" (b +:+ String "-" c)).
  rewrite !Split_app_sep, Split_no_sep by done. reflexivity.
Qed.

(** X12: [GetServiceName] answers the third piece of an identifier that
    has exactly two dashes, and the empty string for every other
    identifier; its answer holds no dash. *)
Theorem GetServiceName_third_piece (instanceID : string) :
  (Strings.Count instanceID "-" ≠ 2 → GetServiceName instanceID = "")
  ∧ (∀ a b c,
       Strings.Count a "-" = 0 → Strings.Count b "-" = 0 →
       Strings.Count c "-" = 0 →
       GetServiceName (a +:+ "-" +:+ b +:+ "-" +:+ c) = c)
  ∧ (Strings.Count instanceID "-" = 2 →
       ∃ a b, Strings.Count a "-" = 0 ∧ Strings.Count b "-" = 0
              ∧ instanceID = a +:+ "-" +:+ b +:+ "-"
                             +:+ GetServiceName instanceID)
  ∧ Strings.Count (GetServiceName instanceID) "-" = 0.
Proof.
  split_and!.
  - intros Hne. unfold GetServiceName.
    rewrite decide_True; [done|]. rewrite Split_length. lia.
  - apply GetServiceName_three.
  - intros Htwo. unfold GetServiceName.
    rewrite decide_False by (rewrite Split_length; lia).
    pose proof (Split_length instanceID "-") as Hlen.
    pose proof (Join_Split instanceID "-") as Hjoin.
    pose proof (Split_pieces_no_sep instanceID "-") as Hfree.
    destruct (Strings.Split instanceID "-") as [|a [|b [|c [|? ?]]]];
      simpl in Hlen; try lia.
    exists a, b. split_and!.
    + apply Hfree. by left.
    + apply Hfree. right. by left.
    + rewrite <-Hjoin at 1. reflexivity.
  - unfold GetServiceName. destruct (decide _) as [|Hlen]; [done|].
    destruct (Strings.Split instanceID "-" !! 2) as [piece|] eqn:Hp; [|done].
    simpl. apply (Split_pieces_no_sep instanceID).
    apply list_elem_of_lookup. by eexists.
Qed.

(** X13: [GetServiceName] does not give back the name that
    [UniqInstanceID] was made from: on the identifier of a service whose
    name has no dash it answers "01", and on the identifier of a service
    whose name has a dash it answers the empty string. It answers the name
    only for the service that is called "01". *)
Theorem GetServiceName_of_UniqInstanceID (serviceName : string) :
  GetServiceName (UniqInstanceID serviceName)
    = (if decide (Strings.Count serviceName "-" = 0) then "01" else "")
  ∧ (GetServiceName (UniqInstanceID serviceName) = serviceName
     ↔ serviceName = "01").
Proof.
  assert (Hval : GetServiceName (UniqInstanceID serviceName)
            = if decide (Strings.Count serviceName "-" = 0)
              then "01" else "").
  { destruct (decide (Strings.Count serviceName "-" = 0)) as [Hz|Hnz].
    - by apply (GetServiceName_three "ins" serviceName "01").
    - unfold GetServiceName.
      rewrite decide_True; [done|]. rewrite Split_length.
      unfold UniqInstanceID. rewrite !Count_app. simpl. lia. }
  split; [exact Hval|]. rewrite Hval.
  destruct (decide (Strings.Count serviceName "-" = 0)) as [Hz|Hnz].
  - split; by intros ->.
  - split; [|by intros ->]. by intros <-.
Qed.

(** The identifier of the service "orders", and of a service whose name
    has a dash. *)
Example GetServiceName_runs :
  UniqInstanceID "orders" = "ins-orders-01"
  ∧ GetServiceName "ins-orders-01" = "01"
  ∧ GetServiceName (UniqInstanceID "order-api") = "".
Proof. split_and!; reflexivity. Qed.

End instance_ids.

(** ** Generated names and keys *)

Section generated_names.

Context `{External}.

Import spec.

(** X14: the six names generated for a service never collide: two of them
    are equal only when they are of the same kind and made from the same
    service name. *)
Theorem generated_names_distinct (s s' : Service) (i j : nat)
    (x y : string) :
  [EgressHTTPServerName s; EgressHandlerName s; EgressPipelineName s;
   IngressHTTPServerName s; IngressHandlerName s; IngressPipelineName s]
    !! i = Some x →
  [EgressHTTPServerName s'; EgressHandlerName s'; EgressPipelineName s';
   IngressHTTPServerName s'; IngressHandlerName s'; IngressPipelineName s']
    !! j = Some y →
  x = y →
  i = j ∧ Name s = Name s'.
Proof.
  intros Hi Hj Hxy.
  destruct i as [|[|[|[|[|[|?]]]]]]; simpl in Hi; try done;
    destruct j as [|[|[|[|[|[|?]]]]]]; simpl in Hj; try done;
    injection Hi as <-; injection Hj as <-;
    unfold EgressHTTPServerName, EgressHandlerName, EgressPipelineName,
      IngressHTTPServerName, IngressHandlerName, IngressPipelineName in Hxy;
    simpl in Hxy; by simplify_eq.
Qed.

End generated_names.

Lemma generated_names_distinct_witness :
  1 = 1 ∧ "orders" = "orders".
Proof.
  apply (generated_names_distinct
           (MeshExamples.service "orders" "shop")
           (MeshExamples.service "orders" "shop")
           1 1 "mesh-egress-handler-orders" "mesh-egress-handler-orders");
    reflexivity.
Defined.

Section instance_keys.

Context `{External}.

Import spec.

(** X15: two instance specs whose registry names and service names hold
    no slash have the same [Key] only when their registry name, service
    name and instance identifier are the same. *)
Theorem Key_injective_without_slash (s s' : ServiceInstanceSpec) :
  Strings.Count (RegistryName s) "/" = 0 →
  Strings.Count (ServiceName s) "/" = 0 →
  Strings.Count (RegistryName s') "/" = 0 →
  Strings.Count (ServiceName s') "/" = 0 →
  Key s = Key s' →
  RegistryName s = RegistryName s'
  ∧ ServiceName s = ServiceName s'
  ∧ InstanceID s = InstanceID s'.
Proof.
  intros Hr Hs Hr' Hs' Hkey. unfold Key in Hkey.
  change (?a +:+ "/" +:+ ?b) with (a +:+ String "/" b) in Hkey.
  apply app_sep_inj in Hkey as [Hreg Hkey]; [|done..].
  change (?a +:+ "/" +:+ ?b) with (a +:+ String "/" b) in Hkey.
  apply app_sep_inj in Hkey as [Hsvc Hid]; done.
Qed.

End instance_keys.

Lemma Key_injective_without_slash_witness :
  "eureka" = "eureka" ∧ "orders" = "orders" ∧ "ins-orders-01" = "ins-orders-01".
Proof.
  apply (Key_injective_without_slash
           (MeshExamples.instance "eureka" "orders" "ins-orders-01")
           (MeshExamples.instance "eureka" "orders" "ins-orders-01"));
    reflexivity.
Defined.

(** With a slash in a name the key no longer tells the fields apart. *)
Example Key_collision :
  spec.Key (MeshExamples.instance "a/b" "c" "d")
  = spec.Key (MeshExamples.instance "a" "b/c" "d").
Proof. reflexivity. Qed.

(** ** Canary headers *)

Section canary_headers.

Context `{External}.

Import spec.

(** Entering the keys of a map [m] in [keys]. *)
Lemma enter_keys_lookup {A} (m : gmap string A) (keys : gmap string bool)
    (k : string) :
  map_fold (λ k _ keys, <[k := true]> keys) keys m !! k =
    match m !! k with Some _ => Some true | None => keys !! k end.
Proof.
  revert k.
  apply (map_fold_weak_ind (λ (r : gmap string bool) (m' : gmap string A),
    ∀ k, r !! k = match m' !! k with
                  | Some _ => Some true
                  | None => keys !! k
                  end)).
  - intros k. by rewrite lookup_empty.
  - intros i x m' r Hfresh IH k.
    destruct (decide (i = k)) as [->|Hne].
    + by rewrite !lookup_insert_eq.
    + rewrite !lookup_insert_ne by done. apply IH.
Qed.

Lemma collect_headers_dom (rules : list (option CanaryRule))
    (keys : gmap string bool) (k : string) :
  is_Some (foldl collect_headers keys rules !! k) ↔
    is_Some (keys !! k)
    ∨ ∃ rule, Some rule ∈ rules ∧ is_Some (Headers rule !! k).
Proof.
  revert keys. induction rules as [|r rules IH]; intros keys; simpl.
  - split; [by left|]. intros [?|(rule & Hin & _)]; [done|].
    by apply elem_of_nil in Hin.
  - rewrite IH. destruct r as [rule|]; simpl.
    + rewrite enter_keys_lookup. split.
      * intros [Hk|(rule' & Hin & Hk)].
        -- destruct (Headers rule !! k) as [x|] eqn:Hr.
           ++ right. exists rule. split; [by left|]. by rewrite Hr.
           ++ by left.
        -- right. exists rule'. split; [by right|done].
      * intros [Hk|(rule' & Hin & Hk)].
        -- left. by destruct (Headers rule !! k).
        -- apply elem_of_cons in Hin as [[= <-]|Hin].
           ++ left. by destruct Hk as [x ->].
           ++ right. by exists rule'.
    + split.
      * intros [?|(rule' & Hin & Hk)]; [by left|].
        right. exists rule'. split; [by right|done].
      * intros [?|(rule' & Hin & Hk)]; [by left|].
        apply elem_of_cons in Hin as [?|Hin]; [done|].
        right. by exists rule'.
Qed.

(** Listing the keys of a map. *)
Lemma list_keys_spec {A} (m : gmap string A) :
  NoDup (map_fold (λ k _ headers, headers ++ [k]) [] m)
  ∧ ∀ k, k ∈ map_fold (λ k _ headers, headers ++ [k]) [] m
         ↔ is_Some (m !! k).
Proof.
  apply (map_fold_weak_ind (λ (r : list string) (m : gmap string A),
    NoDup r ∧ ∀ k, k ∈ r ↔ is_Some (m !! k))).
  - split; [constructor|]. intros k. rewrite lookup_empty.
    split; [by intros ?%elem_of_nil|by intros [? ?]].
  - intros i x m' r Hfresh [Hnodup Hin]. split.
    + apply NoDup_app. split_and!; [done| |apply NoDup_singleton].
      intros k Hk ->%list_elem_of_singleton.
      apply Hin in Hk. rewrite Hfresh in Hk. by destruct Hk.
    + intros k. rewrite elem_of_app, list_elem_of_singleton, Hin.
      destruct (decide (i = k)) as [->|Hne].
      * rewrite lookup_insert_eq. split; [by eexists|by right].
      * rewrite lookup_insert_ne by done. split; [|by left].
        by intros [?|?].
Qed.

(** X16: [UniqueCanaryHeaders] lists every header name of the canary rules
    of the service exactly once: a name is in the list exactly when some
    rule that is not nil has it among its headers, and no name is listed
    twice. A service without canary, or without rules, gets the empty
    list. *)
Theorem UniqueCanaryHeaders_spec (s : Service) :
  NoDup (UniqueCanaryHeaders s)
  ∧ (∀ k, k ∈ UniqueCanaryHeaders s ↔
          ∃ canary rule,
            Service_Canary s = Some canary
            ∧ Some rule ∈ CanaryRules canary
            ∧ is_Some (Headers rule !! k))
  ∧ (Service_Canary s = None → UniqueCanaryHeaders s = []).
Proof.
  unfold UniqueCanaryHeaders.
  destruct (Service_Canary s) as [canary|].
  - destruct (decide (length (CanaryRules canary) = 0)) as [Hlen|Hlen].
    + split_and!; [constructor| |done].
      intros k. split; [by intros ?%elem_of_nil|].
      intros (canary' & rule & [= <-] & Hin & _).
      destruct (CanaryRules canary); [by apply elem_of_nil in Hin|done].
    + destruct (list_keys_spec (foldl collect_headers ∅ (CanaryRules canary)))
        as [Hnodup Hin].
      split_and!; [done| |done].
      intros k. rewrite Hin, collect_headers_dom, lookup_empty. split.
      * intros [[? ?]|(rule & Hr & Hk)]; [done|]. by exists canary, rule.
      * intros (canary' & rule & [= <-] & Hr & Hk). right. by exists rule.
  - split_and!; [constructor| |done].
    intros k. split; [by intros ?%elem_of_nil|].
    by intros (canary' & rule & ? & _).
Qed.

End canary_headers.

(** ** Discovery of one service *)

Section discovery_service.

Context `{External}.

Import spec Server.

Lemma inGlobal_loop_from (name : string) (services : list string) (b : bool) :
  foldl (λ inGlobal v, inGlobal || bool_decide (v = name)) b services = true
  ↔ b = true ∨ name ∈ services.
Proof.
  revert b. induction services as [|v services IH]; intros b; simpl.
  - split; [by left|]. by intros [?|?%elem_of_nil].
  - rewrite IH, orb_true_iff, bool_decide_eq_true, elem_of_cons.
    split; [intros [[?|Heq]|?]|intros [?|[Heq|?]]]; subst; tauto.
Qed.

Lemma inGlobal_loop_true (name : string) (services : list string) :
  inGlobal_loop name services = true ↔ name ∈ services.
Proof.
  unfold inGlobal_loop. rewrite inGlobal_loop_from.
  split; [by intros [?|?]|by right].
Qed.

(** What [getTenants] holds for the two tenants that discovery asks for:
    the answer of the store, when the store has a tenant. *)
Lemma getTenants_lookup (rcs : Server.t) (k : string) :
  k = GlobalTenant ∨ k = rcs_tenant rcs →
  getTenants rcs [GlobalTenant; rcs_tenant rcs] !! k =
    match GetTenantSpecWithInfo rcs k with
    | (Some tn, i) => Some {| tenant := tn; info := i |}
    | (None, _) => None
    end.
Proof.
  intros Hk. unfold getTenants; simpl.
  destruct (decide (rcs_tenant rcs = GlobalTenant)) as [Heq|Hne].
  - assert (k = GlobalTenant) as -> by (destruct Hk; congruence).
    rewrite Heq.
    destruct (GetTenantSpecWithInfo rcs GlobalTenant) as [[tn|] i].
    + by rewrite lookup_insert_eq.
    + by rewrite lookup_empty.
  - destruct Hk as [->| ->].
    + destruct (GetTenantSpecWithInfo rcs GlobalTenant) as [[tn|] i],
        (GetTenantSpecWithInfo rcs (rcs_tenant rcs)) as [[tn'|] i'];
        rewrite ?lookup_insert_ne by done;
        by rewrite ?lookup_insert_eq, ?lookup_empty.
    + destruct (GetTenantSpecWithInfo rcs GlobalTenant) as [[tn|] i],
        (GetTenantSpecWithInfo rcs (rcs_tenant rcs)) as [[tn'|] i'];
        rewrite ?lookup_insert_eq; try done;
        rewrite ?lookup_insert_ne by done; by rewrite ?lookup_empty.
Qed.


Local Ltac no_result :=
  split; [done|];
  intros (? & ? & ? & ? & ? & ? & ? & ? & ? & ? & ? & ?); simplify_eq.

(** X18: [DiscoveryService] returns a result exactly when the server is
    registered, the asked service and the own service are in the store,
    the own service has a sidecar, the store has the server's tenant with
    its key value, and the asked service is registered in the server's
    tenant or listed among the services of the global tenant. The result
    then carries the asked service, the version of the server's tenant,
    and an instance that points at the egress port of the own sidecar. *)
Theorem DiscoveryService_result (rcs : Server.t) (name : string)
    (found : ServiceRegistryInfo) :
  DiscoveryService rcs name = (Some found, None)
  ↔ registered rcs = true
    ∧ ∃ target self sidecar own kv,
        GetServiceSpec rcs name = Some target
        ∧ GetServiceSpec rcs (serviceName rcs) = Some self
        ∧ Service_Sidecar self = Some sidecar
        ∧ GetTenantSpecWithInfo rcs (rcs_tenant rcs) = (Some own, Some kv)
        ∧ (RegisterTenant target = rcs_tenant rcs
           ∨ ∃ global gkv,
               GetTenantSpecWithInfo rcs GlobalTenant = (Some global, gkv)
               ∧ name ∈ Services global)
        ∧ found =
            {| Service := target;
               Ins := {| RegistryName := "";
                         ServiceName := Name target;
                         InstanceID := "ins-" +:+ Name target +:+ "-01";
                         IP := Address sidecar;
                         Port := (EgressPort sidecar mod 2 ^ 32)%Z;
                         RegistryTime := "";
                         Labels := ∅;
                         Status := "" |};
               Version := mvccpb_Version kv |}.
Proof.
  unfold DiscoveryService, DiscoveryService_body.
  rewrite !getTenants_lookup by auto.
  destruct (registered rcs); simpl; [|no_result].
  destruct (GetServiceSpec rcs name) as [target|]; simpl; [|no_result].
  destruct (GetServiceSpec rcs (serviceName rcs)) as [self|]; simpl;
    [|no_result].
  destruct (GetTenantSpecWithInfo rcs (rcs_tenant rcs)) as [[own|] kv] eqn:Hown;
    simpl; [|no_result].
  assert (Hvisible :
    negb match (match GetTenantSpecWithInfo rcs GlobalTenant with
                | (Some tn, i) => Some {| tenant := tn; info := i |}
                | (None, _) => None
                end) with
         | Some globalTenant =>
             inGlobal_loop name (Services (tenant globalTenant))
         | None => false
         end
    && bool_decide (RegisterTenant target ≠ rcs_tenant rcs) = false
    ↔ (RegisterTenant target = rcs_tenant rcs
       ∨ ∃ global gkv,
           GetTenantSpecWithInfo rcs GlobalTenant = (Some global, gkv)
           ∧ name ∈ Services global)).
  { rewrite andb_false_iff, negb_false_iff, bool_decide_eq_false.
    destruct (GetTenantSpecWithInfo rcs GlobalTenant) as [[global|] gkv];
      simpl.
    - rewrite inGlobal_loop_true. split.
      + intros [Hin|Hreg]; [right; by exists global, gkv|left].
        by destruct (decide (RegisterTenant target = rcs_tenant rcs)).
      + intros [Hreg|(g & k & [= <- <-] & Hin)]; [right|by left].
        by intros Hne.
    - split.
      + intros [?|Hreg]; [done|left].
        by destruct (decide (RegisterTenant target = rcs_tenant rcs)).
      + intros [Hreg|(g & k & ? & _)]; [right|done]. by intros Hne. }
  match goal with
  | |- context [if ?c then _ else _] => destruct c
  end; simpl.
  - split; [done|]. intros (_ & t' & s' & sc & o & k & [= <-] & [= <-] & _
                            & _ & Hvis & _).
    by apply Hvisible in Hvis.
  - pose proof (proj1 Hvisible eq_refl) as Hc. unfold defaultInstance.
    destruct (Service_Sidecar self) as [sc|] eqn:Hsc; simpl; [|no_result].
    destruct kv as [kv|]; simpl; [|no_result].
    split.
    + intros [= <-]. split; [done|].
      by exists target, self, sc, own, kv.
    + intros (_ & t' & s' & sc' & o & k & Ht & Hs & Hsc' & Ho & _ & ->).
      by simplify_eq.
Qed.

End discovery_service.

(** [DiscoveryService] on the server of "cart" in tenant "shop": "orders"
    of the same tenant and "auth" of the global tenant are found,
    "billing" of another tenant is not, and with a nil sidecar the call
    returns nothing at all. *)
Example DiscoveryService_runs :
  (Server.DiscoveryService MeshExamples.shop_server "orders").2 = None
  ∧ Server.Version <$>
      (Server.DiscoveryService MeshExamples.shop_server "orders").1
    = Some 7%Z
  ∧ spec.InstanceID ∘ Server.Ins <$>
      (Server.DiscoveryService MeshExamples.shop_server "auth").1
    = Some "ins-auth-01"
  ∧ Server.DiscoveryService MeshExamples.shop_server "billing"
    = (None, Some spec.ErrServiceNotFound)
  ∧ Server.DiscoveryService MeshExamples.shop_server "ghost"
    = (None, Some spec.ErrServiceNotFound)
  ∧ Server.DiscoveryService MeshExamples.bare_server "orders"
    = (None, None).
Proof. split_and!; by vm_compute. Qed.

(** ** Discovery of all visible services *)

Section discovery_all.

Context `{External}.

Import spec Server.




End discovery_all.

Section discovery_all_results.

Context `{External}.

Import spec Server.



End discovery_all_results.


Section discovery_all_errors.

Context `{External}.

Import spec Server.

(** The last loop of [Discovery] when the own service has no sidecar: the
    first key that the store resolves makes the loop panic. *)
Lemma Discovery_loop_no_sidecar (rcs : Server.t) (self : spec.Service)
    (version : Z) (visible : gmap string bool) :
  Service_Sidecar self = None →
  map_fold (λ k _, Discovery_step rcs self version k) (Ok []) visible = Ok []
  ∨ ∃ msg,
      map_fold (λ k _, Discovery_step rcs self version k) (Ok []) visible
      = Panic msg.
Proof.
  intros Hsc.
  apply (map_fold_weak_ind (λ r (m : gmap string bool),
    r = Ok [] ∨ ∃ msg, r = Panic msg)).
  - by left.
  - intros k b m r _ [->|[msg ->]]; unfold Discovery_step.
    + destruct (if decide (k = serviceName rcs) then Some self
                else GetServiceSpec rcs k) as [service|]; [|by left].
      unfold defaultInstance. rewrite Hsc. right. by eexists.
    + right. by eexists.
Qed.

(** X20: [Discovery] returns an error only together with an empty list:
    [ErrNoRegisteredYet] when the server is not registered or its own
    service is not in the store. When the own service has no sidecar the
    list is empty whatever the tenants hold: the panic of the first
    resolved service is recovered and the call returns nothing, without
    an error. *)
Theorem Discovery_errors (rcs : Server.t) :
  (registered rcs = false →
   Discovery rcs = ([], Some ErrNoRegisteredYet))
  ∧ (registered rcs = true →
     GetServiceSpec rcs (serviceName rcs) = None →
     Discovery rcs = ([], Some ErrNoRegisteredYet))
  ∧ (∀ e, (Discovery rcs).2 = Some e → (Discovery rcs).1 = [])
  ∧ (∀ self,
       GetServiceSpec rcs (serviceName rcs) = Some self →
       Service_Sidecar self = None →
       (Discovery rcs).1 = [])
  ∧ (∀ self own kv,
       registered rcs = true →
       GetServiceSpec rcs (serviceName rcs) = Some self →
       Service_Sidecar self = None →
       GetTenantSpecWithInfo rcs (rcs_tenant rcs) = (Some own, kv) →
       Discovery rcs = ([], None)).
Proof.
  unfold Discovery, Discovery_body.
  rewrite !getTenants_lookup by auto.
  destruct (registered rcs); simpl; [|by split_and!].
  destruct (GetServiceSpec rcs (serviceName rcs)) as [self|]; simpl;
    [|by split_and!].
  assert (Hrest : ∀ (version : Z) (visible : gmap string bool),
    let r := match
        match GetTenantSpecWithInfo rcs (rcs_tenant rcs) with
        | (Some tn, i) => Some {| tenant := tn; info := i |}
        | (None, _) => None
        end
      with
      | Some own =>
          match info own with
          | Some kv =>
              match
                map_fold
                  (λ k _, Discovery_step rcs self
                     (if (mvccpb_Version kv >? version)%Z
                      then mvccpb_Version kv else version) k)
                  (Ok [])
                  (foldl (λ visibleServices v, <[v := true]> visibleServices)
                         visible (Services (tenant own)))
              with
              | Ok serviceInfos => Ok (serviceInfos, None)
              | Panic msg => Panic msg
              end
          | None => Panic "nil pointer dereference"
          end
      | None => Ok ([], Some (tenant_missing rcs))
      end in
    let out := match r with Ok r => r | Panic _ => ([], None) end in
    (∀ e, out.2 = Some e → out.1 = [])
    ∧ (Service_Sidecar self = None → out.1 = [])
    ∧ (Service_Sidecar self = None →
       ∀ own kv, GetTenantSpecWithInfo rcs (rcs_tenant rcs) = (Some own, kv) →
       out = ([], None))).
  { intros version visible.
    destruct (GetTenantSpecWithInfo rcs (rcs_tenant rcs)) as [[own|] kv];
      simpl; [|by split_and!].
    destruct kv as [kv|]; simpl; [|by split_and!].
    match goal with
    | |- context [map_fold ?f ?b ?m] => destruct (map_fold f b m) eqn:Hloop
    end; simpl; [|by split_and!].
    split_and!; [done| |].
    - intros Hsc.
      match type of Hloop with
      | map_fold (λ k _, Discovery_step _ _ ?v k) _ ?m = _ =>
          destruct (Discovery_loop_no_sidecar rcs self v m Hsc)
            as [Hok|[msg Hpanic]]
      end; congruence.
    - intros Hsc own' kv' _.
      match type of Hloop with
      | map_fold (λ k _, Discovery_step _ _ ?v k) _ ?m = _ =>
          destruct (Discovery_loop_no_sidecar rcs self v m Hsc)
            as [Hok|[msg Hpanic]]
      end; congruence. }
  destruct (GetTenantSpecWithInfo rcs GlobalTenant) as [[global|] gkv]; simpl.
  - destruct gkv as [gkv|]; simpl.
    + match goal with
      | |- context [foldl ?f ∅ (Services global)] =>
          destruct (Hrest (mvccpb_Version gkv) (foldl f ∅ (Services global)))
            as (He & Hsc & Hnone)
      end.
      split_and!; [done|done|exact He| |].
      * intros self' [= <-]. exact Hsc.
      * intros self' own kv _ [= <-] Hnil Hown. by eapply Hnone.
    + by split_and!.
  - destruct (Hrest 0%Z ∅) as (He & Hsc & Hnone).
    split_and!; [done|done|exact He| |].
    + intros self' [= <-]. exact Hsc.
    + intros self' own kv _ [= <-] Hnil Hown. by eapply Hnone.
Qed.

End discovery_all_errors.

(** [Discovery] on the server of "cart" in tenant "shop" lists "auth",
    "cart" and "orders"; without a sidecar it lists nothing and reports no
    error. *)
Example Discovery_runs :
  length (Server.Discovery MeshExamples.shop_server).1 = 3
  ∧ (Server.Discovery MeshExamples.shop_server).2 = None
  ∧ Server.Discovery MeshExamples.bare_server = ([], None).
Proof. split_and!; by vm_compute. Qed.

(** ** The proxy filter of a pipeline *)

Section proxy_pools.

Context `{External}.

Import spec pipeline.

(** A loop over a map that is left at the first entry that passes a test
    finds an entry exactly when the map has one that passes. *)
Lemma map_fold_found {A} (test : string → A → bool) (m : gmap string A) :
  map_fold (λ k x found, found || test k x) false m = true
  ↔ ∃ k x, m !! k = Some x ∧ test k x = true.
Proof.
  apply (map_fold_weak_ind (λ (r : bool) (m : gmap string A),
    r = true ↔ ∃ k x, m !! k = Some x ∧ test k x = true)).
  - split; [done|]. intros (k & x & Hk & _). by rewrite lookup_empty in Hk.
  - intros k x m' r Hfresh IH. rewrite orb_true_iff, IH. split.
    + intros [(k' & x' & Hk' & Ht)|Ht].
      * exists k', x'. split; [|done].
        rewrite lookup_insert_ne; [done|]. intros ->. congruence.
      * exists k, x. by rewrite lookup_insert_eq.
    + intros (k' & x' & Hk' & Ht).
      destruct (decide (k = k')) as [<-|Hne].
      * rewrite lookup_insert_eq in Hk'. injection Hk' as <-. by right.
      * rewrite lookup_insert_ne in Hk' by done. left. by exists k', x'.
Qed.

Lemma label_found_true (key label : string) (insLabels : gmap string string) :
  label_found key label insLabels = true ↔ insLabels !! key = Some label.
Proof.
  unfold label_found.
  rewrite (map_fold_found (λ insKey insLabel,
             bool_decide (key = insKey) && bool_decide (label = insLabel))).
  split.
  - intros (k & x & Hk & Ht).
    apply andb_true_iff in Ht as [->%bool_decide_eq_true ->%bool_decide_eq_true].
    done.
  - intros Hk. exists key, label. split; [done|].
    by rewrite !bool_decide_true.
Qed.

Lemma rule_matches_true (ruleLabels insLabels : gmap string string) :
  rule_matches ruleLabels insLabels = true
  ↔ ∃ key label,
      ruleLabels !! key = Some label ∧ insLabels !! key = Some label.
Proof.
  unfold rule_matches.
  rewrite (map_fold_found (λ key label, label_found key label insLabels)).
  by setoid_rewrite label_found_true.
Qed.

Lemma sort_instances_eq (instanceSpecs : list ServiceInstanceSpec) acc :
  foldl sort_instance acc instanceSpecs =
    (acc.1 ++ (server_url <$>
                 filter (λ i, Status i = ServiceStatusUp
                              ∧ size (Labels i) = 0) instanceSpecs),
     acc.2 ++ filter (λ i, Status i = ServiceStatusUp
                           ∧ size (Labels i) ≠ 0) instanceSpecs).
Proof.
  revert acc. induction instanceSpecs as [|i l IH]; intros [main canary].
  - simpl. by rewrite !app_nil_r.
  - cbn [foldl]. rewrite IH. unfold sort_instance. rewrite !filter_cons.
    destruct (decide (Status i = ServiceStatusUp)) as [Hup|Hdown].
    + destruct (decide (size (Labels i) = 0)) as [Hno|Hsome]; simpl.
      * rewrite decide_True by done. rewrite decide_False by tauto.
        rewrite fmap_cons. by rewrite <-app_assoc.
      * rewrite decide_False by tauto. rewrite decide_True by done.
        by rewrite <-app_assoc.
    + by rewrite !decide_False by tauto.
Qed.

Lemma rule_servers_eq (rule : CanaryRule)
    (canaryInstances : list ServiceInstanceSpec) :
  rule_servers rule canaryInstances =
    server_url <$>
      filter (λ i, rule_matches (ServiceInstanceLabels rule) (Labels i) = true)
             canaryInstances.
Proof.
  unfold rule_servers.
  cut (∀ servers,
    foldl (λ servers ins,
             if rule_matches (ServiceInstanceLabels rule) (Labels ins)
             then servers ++ [server_url ins] else servers)
          servers canaryInstances
    = servers ++ (server_url <$>
        filter (λ i, rule_matches (ServiceInstanceLabels rule) (Labels i)
                     = true) canaryInstances)).
  { intros Hgen. by rewrite Hgen. }
  induction canaryInstances as [|i l IH]; intros servers.
  - simpl. by rewrite app_nil_r.
  - cbn [foldl]. rewrite IH, filter_cons.
    destruct (rule_matches (ServiceInstanceLabels rule) (Labels i)).
    + rewrite decide_True by done. rewrite fmap_cons.
      by rewrite <-app_assoc.
    + by rewrite decide_False by done.
Qed.

End proxy_pools.

Section proxy_with_canary.

Context `{External}.

Import spec pipeline.

(** The pool that the loop over the canary rules adds for a rule. *)
Lemma candidate_pools_eq (canaryInstances : list ServiceInstanceSpec)
    (lb : proxy_LoadBalance) (rules : list CanaryRule) (pools : list PoolSpec) :
  foldl (add_candidate_pool canaryInstances lb) (Ok pools) (Some <$> rules)
  = Ok (pools ++
        ((λ rule, {| Pool_Filter :=
                       Some {| filter_Headers := Headers rule;
                               filter_URLs := URLs rule |};
                     ServersTags := [];
                     Servers := rule_servers rule canaryInstances;
                     ServiceRegistry := "";
                     Pool_ServiceName := "";
                     LoadBalance := lb |})
           <$> filter (λ rule, rule_servers rule canaryInstances ≠ []) rules)).
Proof.
  revert pools. induction rules as [|rule rules IH]; intros pools.
  - simpl. by rewrite app_nil_r.
  - rewrite fmap_cons. cbn [foldl]. unfold add_candidate_pool at 2.
    rewrite filter_cons.
    destruct (rule_servers rule canaryInstances) as [|url urls] eqn:Hs.
    + do 2 (case_decide; [simpl in *; congruence|]). apply IH.
    + do 2 (case_decide; [|simpl in *; congruence]).
      rewrite IH, fmap_cons, Hs. by rewrite <-app_assoc.
Qed.




End proxy_with_canary.

Section proxy_pool_contents.

Context `{External}.

Import spec pipeline.

Lemma rule_matches_has_label (ruleLabels insLabels : gmap string string) :
  rule_matches ruleLabels insLabels = true → size insLabels ≠ 0.
Proof.
  intros (key & label & _ & Hins)%rule_matches_true Hsize.
  apply map_size_empty_iff in Hsize. by rewrite Hsize, lookup_empty in Hins.
Qed.

Lemma fmap_filter_not_nil {A B} (f : A → B) (P : A → Prop)
    `{!∀ x, Decision (P x)} (l : list A) :
  f <$> filter P l ≠ [] ↔ Exists P l.
Proof.
  rewrite Exists_exists. split.
  - intros Hne. destruct (filter P l) as [|x xs] eqn:Hf; [done|].
    assert (Hx : x ∈ filter P l) by (rewrite Hf; by left).
    apply list_elem_of_filter in Hx as [? ?]. by exists x.
  - intros (x & Hx & HP) Hnil.
    assert (Hin : x ∈ filter P l) by by apply list_elem_of_filter.
    destruct (filter P l); [by apply elem_of_nil in Hin|done].
Qed.

(** The servers of a rule, read off the instance specs. *)
Lemma canary_servers_eq (rule : CanaryRule)
    (instanceSpecs : list ServiceInstanceSpec) :
  rule_servers rule
    (filter (λ i, Status i = ServiceStatusUp ∧ size (Labels i) ≠ 0)
            instanceSpecs)
  = server_url <$>
      filter (λ i, Status i = ServiceStatusUp
                   ∧ rule_matches (ServiceInstanceLabels rule) (Labels i)
                     = true)
             instanceSpecs.
Proof.
  rewrite rule_servers_eq, list_filter_filter. f_equal.
  apply list_filter_iff. intros i. split.
  - tauto.
  - intros [Hup Hm]. split_and!; [done|done|].
    by eapply rule_matches_has_label.
Qed.

(** X22: the pools of the filter "backend". The main pool holds the URLs
    of the instances that are up and carry no label, in their order; the
    candidate pools are those of the canary rules that match an instance
    that is up, in the order of the rules, and the pool of a rule holds
    the URLs of the instances that are up and that the rule matches. A
    rule matches an instance when one of its labels is a label of the
    instance, with the same value. An instance that is not up is in no
    pool, nor is a labelled instance that no rule matches. Every pool
    balances as the service says, or round robin. *)
Theorem appendProxyWithCanary_pools
    (instanceSpecs : list ServiceInstanceSpec) (rules : list CanaryRule)
    (lb : option proxy_LoadBalance) (b : pipelineSpecBuilder) :
  appendProxyWithCanary instanceSpecs
    (Some {| CanaryRules := Some <$> rules |}) lb b
  = Ok (append_filter b "backend"
          (<["kind" := VString proxy_Kind]>
           (<["name" := VString "backend"]>
            (<["mainPool" :=
                 VPool {| Pool_Filter := None; ServersTags := [];
                          Servers :=
                            server_url <$>
                              filter (λ i, Status i = ServiceStatusUp
                                           ∧ Labels i = ∅) instanceSpecs;
                          ServiceRegistry := "";
                          Pool_ServiceName := "";
                          LoadBalance := or_roundRobin lb |}]>
             (<["candidatePools" :=
                  VPools
                    ((λ rule,
                        {| Pool_Filter :=
                             Some {| filter_Headers := Headers rule;
                                     filter_URLs := URLs rule |};
                           ServersTags := [];
                           Servers :=
                             server_url <$>
                               filter (λ i, Status i = ServiceStatusUp
                                            ∧ rule_matches
                                                (ServiceInstanceLabels rule)
                                                (Labels i) = true)
                                      instanceSpecs;
                           ServiceRegistry := "";
                           Pool_ServiceName := "";
                           LoadBalance := or_roundRobin lb |})
                     <$> filter
                           (λ rule,
                              Exists (λ i, Status i = ServiceStatusUp
                                           ∧ rule_matches
                                               (ServiceInstanceLabels rule)
                                               (Labels i) = true)
                                     instanceSpecs)
                           rules)]> ∅)))))
  ∧ (∀ ruleLabels insLabels,
       rule_matches ruleLabels insLabels = true
       ↔ ∃ key label,
           ruleLabels !! key = Some label ∧ insLabels !! key = Some label).
Proof.
  split; [|apply rule_matches_true].
  unfold appendProxyWithCanary. rewrite sort_instances_eq.
  cbn [fst snd app CanaryRules].
  assert (Hmain :
    filter (λ i, Status i = ServiceStatusUp ∧ size (Labels i) = 0)
           instanceSpecs
    = filter (λ i, Status i = ServiceStatusUp ∧ Labels i = ∅) instanceSpecs).
  { apply list_filter_iff. intros i. by rewrite map_size_empty_iff. }
  rewrite Hmain.
  assert (Hpools :
    (λ rule, {| Pool_Filter :=
                  Some {| filter_Headers := Headers rule;
                          filter_URLs := URLs rule |};
                ServersTags := [];
                Servers :=
                  rule_servers rule
                    (filter (λ i, Status i = ServiceStatusUp
                                  ∧ size (Labels i) ≠ 0) instanceSpecs);
                ServiceRegistry := "";
                Pool_ServiceName := "";
                LoadBalance := or_roundRobin lb |})
      <$> filter (λ rule,
                    rule_servers rule
                      (filter (λ i, Status i = ServiceStatusUp
                                    ∧ size (Labels i) ≠ 0) instanceSpecs)
                    ≠ []) rules
    = (λ rule, {| Pool_Filter :=
                    Some {| filter_Headers := Headers rule;
                            filter_URLs := URLs rule |};
                  ServersTags := [];
                  Servers :=
                    server_url <$>
                      filter (λ i, Status i = ServiceStatusUp
                                   ∧ rule_matches (ServiceInstanceLabels rule)
                                                  (Labels i) = true)
                             instanceSpecs;
                  ServiceRegistry := "";
                  Pool_ServiceName := "";
                  LoadBalance := or_roundRobin lb |})
        <$> filter (λ rule,
                      Exists (λ i, Status i = ServiceStatusUp
                                   ∧ rule_matches (ServiceInstanceLabels rule)
                                                  (Labels i) = true)
                             instanceSpecs) rules).
  { rewrite (list_filter_iff _
       (λ rule, Exists (λ i, Status i = ServiceStatusUp
                             ∧ rule_matches (ServiceInstanceLabels rule)
                                            (Labels i) = true)
                       instanceSpecs)).
    - apply list_fmap_ext. intros _ rule _. by rewrite canary_servers_eq.
    - intros rule. rewrite canary_servers_eq. apply fmap_filter_not_nil. }
  destruct (decide _) as [[Hci Hrules]|Hskip].
  - rewrite candidate_pools_eq. cbn [app]. by rewrite Hpools.
  - rewrite <-Hpools.
    assert (Hnone :
      filter (λ rule,
                rule_servers rule
                  (filter (λ i, Status i = ServiceStatusUp
                                ∧ size (Labels i) ≠ 0) instanceSpecs)
                ≠ []) rules = []) .
    { destruct (filter (λ i, Status i = ServiceStatusUp
                             ∧ size (Labels i) ≠ 0) instanceSpecs)
        as [|i l] eqn:Hci.
      - apply filter_none. intros rule _ Hne. by apply Hne.
      - destruct rules as [|r rs]; [done|].
        exfalso. apply Hskip. by rewrite length_fmap. }
    by rewrite Hnone.
Qed.

End proxy_pool_contents.

(** Three instances and two rules: the unlabelled instance is the main
    server, the instance labelled version=canary is the one server of the
    one candidate pool, and the instance that is out of service is in no
    pool. With a rule that is nil the call panics. *)
Example appendProxyWithCanary_runs :
  match pipeline.appendProxyWithCanary MeshExamples.three_instances
          (Some MeshExamples.two_rules) None
          (pipeline.newPipelineSpecBuilder "p") with
  | Ok b =>
      match last (pipeline.Filters b) with
      | Some filter =>
          (pipeline.VPool_servers filter "mainPool",
           pipeline.VPools_servers filter "candidatePools")
          = (Some ["http://10.0.0.1:8080"], Some [["http://10.0.0.2:8080"]])
      | None => False
      end
  | Panic _ => False
  end
  ∧ pipeline.appendProxyWithCanary MeshExamples.three_instances
      (Some MeshExamples.nil_rule) None (pipeline.newPipelineSpecBuilder "p")
    = Panic "nil pointer dereference".
Proof. split; by vm_compute. Qed.

(** ** The pipelines of a service *)

Section pipelines.

Context `{External}.

Import spec pipeline.

Lemma append_filter_names (b : pipelineSpecBuilder) (name : string)
    (filter : gmap string value) :
  flow_names_filters b →
  filter !! "name" = Some (VString name) →
  flow_names_filters (append_filter b name filter).
Proof.
  intros Hb Hname. unfold flow_names_filters, append_filter; simpl.
  apply Forall2_app; [done|]. by constructor.
Qed.

Lemma appendRateLimiter_names rl b :
  flow_names_filters b → flow_names_filters (appendRateLimiter rl b).
Proof.
  intros Hb. unfold appendRateLimiter. destruct rl as [rl|]; [|done].
  case_decide; [done|]. by apply append_filter_names.
Qed.

Lemma appendCircuitBreaker_names cb b :
  flow_names_filters b → flow_names_filters (appendCircuitBreaker cb b).
Proof.
  intros Hb. unfold appendCircuitBreaker. destruct cb as [cb|]; [|done].
  case_decide; [done|]. by apply append_filter_names.
Qed.

Lemma appendRetryer_names r b :
  flow_names_filters b → flow_names_filters (appendRetryer r b).
Proof.
  intros Hb. unfold appendRetryer. destruct r as [r|]; [|done].
  case_decide; [done|]. by apply append_filter_names.
Qed.

Lemma appendTimeLimiter_names tl b :
  flow_names_filters b → flow_names_filters (appendTimeLimiter tl b).
Proof.
  intros Hb. unfold appendTimeLimiter. destruct tl as [tl|]; [|done].
  case_decide; [done|]. by apply append_filter_names.
Qed.

Lemma appendMock_names m b :
  flow_names_filters b → flow_names_filters (appendMock m b).
Proof.
  intros Hb. unfold appendMock.
  case_decide; [done|]. by apply append_filter_names.
Qed.

Lemma appendProxy_names servers lb b :
  flow_names_filters b → flow_names_filters (appendProxy servers lb b).
Proof. intros Hb. by apply append_filter_names. Qed.

Lemma appendProxyWithCanary_names instanceSpecs canary lb b b' :
  flow_names_filters b →
  appendProxyWithCanary instanceSpecs canary lb b = Ok b' →
  flow_names_filters b'.
Proof.
  intros Hb. unfold appendProxyWithCanary.
  match goal with
  | |- context [match ?c with Ok _ => _ | Panic _ => _ end] => destruct c
  end; [|done].
  intros [= <-]. by apply append_filter_names.
Qed.

(** X23: in every pipeline that the three builders of a service produce,
    the flow names the filters one by one: the flow and the filters have
    the same length, and the entry "name" of each filter is the name at
    the same place of the flow. *)
Theorem pipelines_flow_names_filters (s : Service)
    (instanceSpecs : list ServiceInstanceSpec) (applicationPort : Z) :
  (∀ b, IngressPipelineSpec_builder s instanceSpecs = Ok b →
        flow_names_filters b)
  ∧ (∀ b, SideCarIngressPipelineSpec_builder s applicationPort = Ok b →
          flow_names_filters b)
  ∧ (∀ b, SideCarEgressPipelineSpec_builder s instanceSpecs = Ok b →
          flow_names_filters b).
Proof.
  assert (Hnew : ∀ name, flow_names_filters (newPipelineSpecBuilder name))
    by (intros name; constructor).
  split_and!.
  - intros b. by apply appendProxyWithCanary_names.
  - intros b. unfold SideCarIngressPipelineSpec_builder.
    destruct (ApplicationEndpoint s applicationPort); [|done].
    intros [= <-]. apply appendProxy_names.
    destruct (Service_Resilience s); [by apply appendRateLimiter_names|done].
  - intros b. unfold SideCarEgressPipelineSpec_builder.
    destruct (negb (Runnable s)).
    + destruct (Service_Mock s); [|done].
      intros [= <-]. by apply appendMock_names.
    + apply appendProxyWithCanary_names.
      destruct (Service_Resilience s); [|done].
      by apply appendCircuitBreaker_names, appendRetryer_names,
        appendTimeLimiter_names.
Qed.

End pipelines.

Section pipeline_shapes.

Context `{External}.

Import spec pipeline.

Lemma appendProxyWithCanary_flow instanceSpecs canary lb b b' :
  appendProxyWithCanary instanceSpecs canary lb b = Ok b' →
  Filter <$> Builder_Flow b' = (Filter <$> Builder_Flow b) ++ ["backend"].
Proof.
  unfold appendProxyWithCanary.
  match goal with
  | |- context [match ?c with Ok _ => _ | Panic _ => _ end] => destruct c
  end; [|done].
  intros [= <-]. unfold append_filter; simpl. by rewrite fmap_app.
Qed.

Local Ltac sublist_of_literal :=
  repeat first [apply sublist_nil | apply sublist_skip | apply sublist_cons].

(** The resilience filters of the egress pipeline, in the order in which
    they are appended. *)
Lemma egress_resilience_flow (resilience : Resilience) (b : pipelineSpecBuilder) :
  Builder_Flow b = [] →
  (Filter <$> Builder_Flow
     (appendCircuitBreaker (CircuitBreaker resilience)
        (appendRetryer (Retryer resilience)
           (appendTimeLimiter (TimeLimiter resilience) b))))
  `sublist_of` ["timeLimiter"; "retryer"; "circuitBreaker"].
Proof.
  intros Hb.
  unfold appendCircuitBreaker, appendRetryer, appendTimeLimiter.
  destruct (CircuitBreaker resilience), (Retryer resilience),
    (TimeLimiter resilience); repeat case_decide;
    unfold append_filter; simpl; rewrite Hb; simpl; sublist_of_literal.
Qed.

(** X24: the egress pipeline of a sidecar. For a service whose mock is
    switched on the pipeline never reaches a backend: its flow is the
    filter "mock" alone, or no filter at all when the mock has no rule.
    For every other service the flow ends with the filter "backend", and
    before it come, in this order and each at most once, "timeLimiter",
    "retryer" and "circuitBreaker"; "rateLimiter" and "mock" are never
    part of it. *)
Theorem egress_pipeline_flow (s : Service)
    (instanceSpecs : list ServiceInstanceSpec) :
  (Runnable s = false →
   ∃ m b,
     Service_Mock s = Some m
     ∧ SideCarEgressPipelineSpec_builder s instanceSpecs = Ok b
     ∧ Filter <$> Builder_Flow b
       = (if decide (length (Mock_Rules m) = 0) then [] else ["mock"]))
  ∧ (Runnable s = true →
     ∀ b, SideCarEgressPipelineSpec_builder s instanceSpecs = Ok b →
       ∃ resilience,
         Filter <$> Builder_Flow b = resilience ++ ["backend"]
         ∧ resilience `sublist_of` ["timeLimiter"; "retryer"; "circuitBreaker"]).
Proof.
  unfold SideCarEgressPipelineSpec_builder. split.
  - intros Hrun. rewrite Hrun; simpl.
    unfold Runnable in Hrun.
    destruct (Service_Mock s) as [m|]; [|done].
    exists m. eexists. split_and!; [done|done|].
    unfold appendMock. by case_decide.
  - intros Hrun b. rewrite Hrun; simpl.
    intros Hb%appendProxyWithCanary_flow. rewrite Hb.
    eexists. split; [done|].
    destruct (Service_Resilience s) as [resilience|].
    + by apply egress_resilience_flow.
    + simpl. sublist_of_literal.
Qed.

(** X25: the ingress pipeline of a sidecar panics exactly when the service
    has no sidecar. Otherwise its flow is "backend", preceded by
    "rateLimiter" when the service has a rate limiter with policies and
    URLs, and the main pool of the backend holds one server: the
    application endpoint, that is the ingress protocol and the address of
    the sidecar with the application port. *)
Theorem sidecar_ingress_pipeline (s : Service) (applicationPort : Z) :
  ((∃ msg, SideCarIngressPipelineSpec_builder s applicationPort = Panic msg)
   ↔ Service_Sidecar s = None)
  ∧ (∀ b, SideCarIngressPipelineSpec_builder s applicationPort = Ok b →
       (Filter <$> Builder_Flow b = ["backend"]
        ∨ Filter <$> Builder_Flow b = ["rateLimiter"; "backend"])
       ∧ ∃ sidecar filter,
           Service_Sidecar s = Some sidecar
           ∧ last (Filters b) = Some filter
           ∧ filter !! "mainPool"
             = Some (VPool
                 {| Pool_Filter := None; ServersTags := [];
                    Servers := [IngressProtocol sidecar +:+ "://"
                                +:+ Address sidecar +:+ ":"
                                +:+ pretty applicationPort];
                    ServiceRegistry := ""; Pool_ServiceName := "";
                    LoadBalance := or_roundRobin (Service_LoadBalance s) |})
           ∧ filter !! "candidatePools" = None).
Proof.
  unfold SideCarIngressPipelineSpec_builder, ApplicationEndpoint.
  destruct (Service_Sidecar s) as [sidecar|]; simpl.
  - split; [split; [by intros [? ?]|done]|].
    intros b [= <-]. split.
    + destruct (Service_Resilience s) as [resilience|]; [|by left].
      unfold appendRateLimiter.
      destruct (RateLimiter resilience); [|by left].
      case_decide; [by left|by right].
    + exists sidecar. eexists. split; [done|]. split.
      * unfold appendProxy, append_filter; simpl. by rewrite last_snoc.
      * split; reflexivity.
  - split; [split; [done|by eexists]|done].
Qed.

End pipeline_shapes.

(** The egress pipeline of a mocked service without rules is empty; the
    one of a service with resilience specs runs the time limiter and the
    circuit breaker before the backend, and skips the retryer that has no
    policy. *)
Example egress_pipeline_runs :
  match pipeline.SideCarEgressPipelineSpec_builder
          MeshExamples.mocked_service [] with
  | Ok b => pipeline.Builder_Flow b = []
  | Panic _ => False
  end
  ∧ match pipeline.SideCarEgressPipelineSpec_builder
            MeshExamples.resilient_service [] with
    | Ok b => pipeline.Filter <$> pipeline.Builder_Flow b
              = ["timeLimiter"; "circuitBreaker"; "backend"]
    | Panic _ => False
    end.
Proof. split; reflexivity. Qed.
